(** * TALD UNIA DSP kernel shell: aligned buffers and kernel lifecycle

    A shallow embedding of the two [DSPKernel.hpp] headers of the repository:

    - [src/macos/TALDUnia/Audio/DSP/DSPKernel.hpp] (namespace [tald::dsp]):
      [alignedMalloc], [alignedFree], the constructor and destructor of
      [DSPKernel] and [isBufferAligned];
    - [src/ios/TALDUnia/Audio/DSP/DSPKernel.hpp]: the default constructor of
      [DSPKernel] and [setBypassed].

    Machine integers ([size_t], [uintptr_t], [int]) are [Z] with the
    wrap-around written out, [double] is the kernel's binary64 [float], and
    the C and C++ runtime the headers call ([posix_memalign], [free],
    [operator new], [vDSP_create_fftsetup]) is an explicit world threaded
    through a small state-and-exception monad. *)

From Stdlib Require Import ZArith Bool List Lia String.
From Stdlib Require Import Strings.Byte.
From Stdlib Require Import PrimFloat FloatOps FloatAxioms SpecFloat.
Import ListNotations.
Local Open Scope Z_scope.

(** ** Machine integers *)

Definition SIZE_WIDTH : Z := 64.

(** Arithmetic on [size_t] is modulo [2^64]. *)
Definition wrap64 (x : Z) : Z := x mod 2 ^ SIZE_WIDTH.

Definition nullptr : Z := 0.

(** [sizeof(float)] and [sizeof(void* )] on the 64-bit Apple targets. *)
Definition sizeof_float : Z := 4.
Definition sizeof_voidp : Z := 8.

(** [std::bit_width(x)]: the number of bits needed to write [x]. *)
Definition bit_width (x : Z) : Z := if x <=? 0 then 0 else Z.log2 x + 1.

(** ** The world outside the headers *)

(** Calls that reach the C/C++ runtime, newest first in [calls]. *)
Inductive SysCall : Type :=
| call_posix_memalign (alignment size : Z)
| call_free (ptr : Z)
| call_operator_new (size : Z)
| call_operator_delete (ptr : Z)
| call_create_fftsetup (log2n : Z)
| call_destroy_fftsetup (setup : Z).

(** [live]: the blocks currently allocated, as (base address, size in bytes);
    [mem]: the byte stored at each address; [setups]: the FFT setups currently
    alive; [calls]: the log of runtime calls. *)
Record World : Type := mkWorld {
  live : list (Z * Z);
  mem : Z -> byte;
  setups : list Z;
  calls : list SysCall
}.

Definition log_call (c : SysCall) (w : World) : World :=
  mkWorld (live w) (mem w) (setups w) (c :: calls w).

Definition add_block (p size : Z) (w : World) : World :=
  mkWorld ((p, size) :: live w) (mem w) (setups w) (calls w).

Definition drop_block (p : Z) (w : World) : World :=
  mkWorld (filter (fun b => negb (fst b =? p)) (live w)) (mem w) (setups w) (calls w).

Definition fill (p : Z) (c : byte) (n : Z) (w : World) : World :=
  mkWorld (live w)
          (fun a => if (p <=? a) && (a <? p + n) then c else mem w a)
          (setups w) (calls w).

Definition add_setup (h : Z) (w : World) : World :=
  mkWorld (live w) (mem w) (h :: setups w) (calls w).

Definition drop_setup (h : Z) (w : World) : World :=
  mkWorld (live w) (mem w) (filter (fun s => negb (s =? h)) (setups w)) (calls w).

(** The system collaborators the headers consume: where the memory allocator
    places a block of a given alignment and size ([None]: it cannot satisfy
    the request), the alignment [operator new] guarantees
    ([__STDCPP_DEFAULT_NEW_ALIGNMENT__]), and the handle the transform
    facility hands out ([None]: creation failed). *)
Class System : Type := {
  sys_place : World -> Z -> Z -> option Z;
  new_alignment : Z;
  sys_fftsetup : World -> Z -> option Z
}.

(** What POSIX and the C++ standard promise about a successful placement. *)
Class Conforming (S : System) : Prop := {
  place_aligned : forall w a s p, sys_place w a s = Some p -> 0 < a -> p mod a = 0;
  place_nonnull : forall w a s p, sys_place w a s = Some p -> 0 < p;
  place_fresh : forall w a s p, sys_place w a s = Some p -> ~ In p (map fst (live w));
  new_alignment_pos : 0 < new_alignment
}.

(** The allocator never runs out. *)
Definition Inexhaustible (S : System) : Prop :=
  forall w a s, sys_place w a s <> None.

(** ** Exceptions and the computation monad *)

Inductive exn : Type :=
| invalid_argument (what : string)
| runtime_error (what : string)
| bad_alloc.

Inductive result (A : Type) : Type :=
| Ok (a : A)
| Throw (e : exn).
Arguments Ok {A} a.
Arguments Throw {A} e.

Definition M (A : Type) : Type := World -> result A * World.

Definition ret {A} (a : A) : M A := fun w => (Ok a, w).

(** The raise alone. What building the exception object costs is written at
    the throw site, see [throw_with_message]. *)
Definition throw {A} (e : exn) : M A := fun w => (Throw e, w).

Definition bind {A B} (m : M A) (f : A -> M B) : M B :=
  fun w => match m w with
           | (Ok a, w') => f a w'
           | (Throw e, w') => (Throw e, w')
           end.

(** A step that only changes the world. *)
Definition effect (f : World -> World) : M unit := fun w => (Ok tt, f w).

Declare Scope cxx_scope.
Delimit Scope cxx_scope with cxx.
Notation "x <- m ;; k" := (bind m (fun x => k))
  (at level 61, m at next level, right associativity) : cxx_scope.
Notation "m ;;; k" := (bind m (fun _ => k))
  (at level 61, right associativity) : cxx_scope.
Local Open Scope cxx_scope.

(** ** The C and C++ runtime *)

Definition EINVAL : Z := 22.
Definition ENOMEM : Z := 12.

Definition is_pow2 (a : Z) : bool := (0 <? a) && (a =? 2 ^ Z.log2 a).

(** The standard exceptions that carry a message ([std::invalid_argument],
    [std::runtime_error]) copy it into reference-counted storage taken from
    [operator new]: the three-word header of libc++'s reference-counted
    string, the characters and their terminator. *)
Definition refstring_header : Z := 24.

Definition what_bytes (what : string) : Z :=
  refstring_header + Z.of_nat (String.length what) + 1.

Section Runtime.
Context {S : System}.

(** [int posix_memalign(void **memptr, size_t alignment, size_t size)]:
    the result is the return code paired with the value left in [*memptr]
    (the caller initialised it to [nullptr]). *)
Definition posix_memalign (alignment size : Z) : M (Z * Z) :=
  fun w =>
    let w0 := log_call (call_posix_memalign alignment size) w in
    if negb (is_pow2 alignment && (alignment mod sizeof_voidp =? 0))
    then (Ok (EINVAL, nullptr), w0)
    else match sys_place w alignment size with
         | None => (Ok (ENOMEM, nullptr), w0)
         | Some p => (Ok (0, p), add_block p size w0)
         end.

(** [void free(void* )]. The constructor and the destructor hand it null
    pointers and bases of live blocks only; on any other pointer the
    behaviour of the real [free] is undefined, and the function below, which
    then only logs the call, says nothing about it. *)
Definition free (ptr : Z) : M unit :=
  fun w =>
    let w0 := log_call (call_free ptr) w in
    if ptr =? nullptr then (Ok tt, w0) else (Ok tt, drop_block ptr w0).

(** [void* memset(void*, int, size_t)]. *)
Definition memset (ptr : Z) (c : byte) (n : Z) : M unit :=
  effect (fill ptr c n).

(** [operator new(size)] / [operator new[](size)]: throws [std::bad_alloc]. *)
Definition operator_new (size : Z) : M Z :=
  fun w =>
    let w0 := log_call (call_operator_new size) w in
    match sys_place w new_alignment size with
    | None => (Throw bad_alloc, w0)
    | Some p => (Ok p, add_block p size w0)
    end.

(** [throw E(what)] for an exception [E] that carries a message: the
    exception is built first, which takes the storage of its message from
    [operator new] and so can itself end in [std::bad_alloc], and is then
    thrown. The message block belongs to the exception object and stays
    live while the exception is in flight. *)
Definition throw_with_message {A} (E : string -> exn) (what : string) : M A :=
  operator_new (what_bytes what) ;;; throw (E what).

(** [operator delete(ptr)] / [operator delete[](ptr)]; as for [free], only
    null pointers and bases of live blocks are meaningful arguments. *)
Definition operator_delete (ptr : Z) : M unit :=
  fun w =>
    let w0 := log_call (call_operator_delete ptr) w in
    if ptr =? nullptr then (Ok tt, w0) else (Ok tt, drop_block ptr w0).

(** [vDSP_create_fftsetup(log2n, radix)]: the setup, or [NULL] on failure. *)
Definition vDSP_create_fftsetup (log2n : Z) : M Z :=
  fun w =>
    let w0 := log_call (call_create_fftsetup log2n) w in
    match sys_fftsetup w log2n with
    | None => (Ok nullptr, w0)
    | Some h => (Ok h, add_setup h w0)
    end.

(** [vDSP_destroy_fftsetup(setup)]. *)
Definition vDSP_destroy_fftsetup (setup : Z) : M unit :=
  effect (fun w => drop_setup setup (log_call (call_destroy_fftsetup setup) w)).

End Runtime.

(** Runs [cleanup] when [m] leaves by an exception, then lets the exception
    travel on: the unwinding of a scope. *)
Definition on_unwind {A} (m : M A) (cleanup : M unit) : M A :=
  fun w => match m w with
           | (Ok a, w') => (Ok a, w')
           | (Throw e, w') => (Throw e, snd (cleanup w'))
           end.

(** ** The macOS header, namespace [tald::dsp] *)

Module MacOS.

Definition MAX_CHANNELS : Z := 8.
Definition SIMD_VECTOR_SIZE : Z := 8.
Definition DSP_ALIGNMENT : Z := 16.
Definition CACHE_LINE_SIZE : Z := 64.
Definition MAX_BUFFER_SIZE : Z := 8192.
Definition MIN_SAMPLE_RATE : float := 44100.0%float.
Definition MAX_SAMPLE_RATE : float := 384000.0%float.

(** [std::vector<float>]: its storage and its element count. *)
Record vector : Type := mkVector {
  vec_data : Z;
  vec_size : Z
}.

Definition vector_empty : vector := mkVector nullptr 0.

Record DSPKernel : Type := mkDSPKernel {
  inputBuffer : Z;
  outputBuffer : Z;
  bufferSize : Z;
  numChannels : Z;
  sampleRate : float;
  processingBuffer : vector;
  isProcessing : bool;
  bypass : bool;
  fftSetup : Z;
  tempBuffer : Z
}.

Definition set_inputBuffer (p : Z) (k : DSPKernel) : DSPKernel :=
  mkDSPKernel p (outputBuffer k) (bufferSize k) (numChannels k) (sampleRate k)
              (processingBuffer k) (isProcessing k) (bypass k) (fftSetup k) (tempBuffer k).

Definition set_outputBuffer (p : Z) (k : DSPKernel) : DSPKernel :=
  mkDSPKernel (inputBuffer k) p (bufferSize k) (numChannels k) (sampleRate k)
              (processingBuffer k) (isProcessing k) (bypass k) (fftSetup k) (tempBuffer k).

Definition set_processingBuffer (v : vector) (k : DSPKernel) : DSPKernel :=
  mkDSPKernel (inputBuffer k) (outputBuffer k) (bufferSize k) (numChannels k) (sampleRate k)
              v (isProcessing k) (bypass k) (fftSetup k) (tempBuffer k).

Definition set_fftSetup (h : Z) (k : DSPKernel) : DSPKernel :=
  mkDSPKernel (inputBuffer k) (outputBuffer k) (bufferSize k) (numChannels k) (sampleRate k)
              (processingBuffer k) (isProcessing k) (bypass k) h (tempBuffer k).

Definition set_tempBuffer (p : Z) (k : DSPKernel) : DSPKernel :=
  mkDSPKernel (inputBuffer k) (outputBuffer k) (bufferSize k) (numChannels k) (sampleRate k)
              (processingBuffer k) (isProcessing k) (bypass k) (fftSetup k) p.

Section Code.
Context {S : System}.

(** [void* alignedMalloc(size_t size, size_t alignment)], the [__APPLE__]
    branch. *)
Definition alignedMalloc (size alignment : Z) : M Z :=
  if negb (Z.land alignment (wrap64 (alignment - 1)) =? 0) then
    ret nullptr
  else
    let alignment := if alignment <? DSP_ALIGNMENT then DSP_ALIGNMENT else alignment in
    r <- posix_memalign alignment size ;;
    if negb (fst r =? 0) then
      ret nullptr
    else
      let ptr := snd r in
      if negb (ptr =? nullptr) then
        memset ptr x00 size ;;; ret ptr
      else
        ret ptr.

(** [void alignedFree(void* ptr) noexcept]. *)
Definition alignedFree (ptr : Z) : M unit :=
  if negb (ptr =? nullptr) then free ptr else ret tt.

(** [processingBuffer.resize(n)] on a vector that is still empty: new
    storage, value-initialised (every byte zero). *)
Definition vector_resize (n : Z) (v : vector) : M vector :=
  if n =? 0 then ret v
  else
    p <- operator_new (wrap64 (n * sizeof_float)) ;;
    memset p x00 (wrap64 (n * sizeof_float)) ;;;
    ret (mkVector p n).

(** [~vector()]. *)
Definition vector_dtor (v : vector) : M unit :=
  if negb (vec_data v =? nullptr) then operator_delete (vec_data v) else ret tt.

(** [std::make_unique<float[]>(n)]: [new float[n]()]. *)
Definition make_unique (n : Z) : M Z :=
  p <- operator_new (wrap64 (n * sizeof_float)) ;;
  memset p x00 (wrap64 (n * sizeof_float)) ;;;
  ret p.

(** [~unique_ptr<float[]>()]. *)
Definition unique_ptr_dtor (p : Z) : M unit :=
  if negb (p =? nullptr) then operator_delete p else ret tt.

(** What the language destroys by itself when a [DSPKernel] goes away or
    its constructor is left by an exception: the members with a destructor,
    in reverse order of declaration. The raw pointers and the FFT handle
    have none. *)
Definition destroy_members (k : DSPKernel) : M unit :=
  unique_ptr_dtor (tempBuffer k) ;;;
  vector_dtor (processingBuffer k).

(** The size in bytes of one buffer, [MAX_BUFFER_SIZE * channels *
    sizeof(float)] in [size_t], and its length in samples. *)
Definition buffer_samples (channels : Z) : Z :=
  wrap64 (MAX_BUFFER_SIZE * wrap64 channels).

Definition buffer_bytes (channels : Z) : Z :=
  wrap64 (buffer_samples channels * sizeof_float).

(** [DSPKernel::DSPKernel(double sampleRate, int channels)]. *)
Definition DSPKernel_ctor (sampleRate : float) (channels : Z) : M DSPKernel :=
  let this :=
    mkDSPKernel nullptr nullptr 0 channels sampleRate vector_empty false false nullptr nullptr in
  if ((sampleRate <? MIN_SAMPLE_RATE) || (MAX_SAMPLE_RATE <? sampleRate))%float then
    on_unwind (throw_with_message invalid_argument "Sample rate out of valid range")
              (destroy_members this)
  else if (channels <=? 0) || (MAX_CHANNELS <? channels) then
    on_unwind (throw_with_message invalid_argument "Invalid channel count")
              (destroy_members this)
  else
    inp <- alignedMalloc (buffer_bytes channels) CACHE_LINE_SIZE ;;
    let this := set_inputBuffer inp this in
    out <- alignedMalloc (buffer_bytes channels) CACHE_LINE_SIZE ;;
    let this := set_outputBuffer out this in
    if (inputBuffer this =? nullptr) || (outputBuffer this =? nullptr) then
      alignedFree (inputBuffer this) ;;;
      alignedFree (outputBuffer this) ;;;
      on_unwind (throw_with_message runtime_error "Failed to allocate aligned buffers")
                (destroy_members this)
    else
      v <- on_unwind (vector_resize (buffer_samples channels) (processingBuffer this))
                     (destroy_members this) ;;
      let this := set_processingBuffer v this in
      h <- vDSP_create_fftsetup (bit_width (MAX_BUFFER_SIZE mod 2 ^ 32)) ;;
      let this := set_fftSetup h this in
      t <- on_unwind (make_unique (buffer_samples channels)) (destroy_members this) ;;
      let this := set_tempBuffer t this in
      ret this.

(** [DSPKernel::~DSPKernel()], followed by the destruction of the members. *)
Definition DSPKernel_dtor (k : DSPKernel) : M unit :=
  (if negb (fftSetup k =? nullptr) then vDSP_destroy_fftsetup (fftSetup k) else ret tt) ;;;
  alignedFree (inputBuffer k) ;;;
  alignedFree (outputBuffer k) ;;;
  destroy_members k.

(** [bool isBufferAligned(const void* ptr) const noexcept]. *)
Definition isBufferAligned (k : DSPKernel) (ptr : Z) : M bool :=
  ret (ptr mod DSP_ALIGNMENT =? 0).

End Code.
End MacOS.

(** ** The iOS header *)

Module IOS.

Definition kMaxFramesPerSlice : Z := 4096.
Definition kMaxChannels : Z := 8.
Definition kSIMDAlignmentBytes : Z := 16.
Definition kDefaultSampleRate : float := 48000.0%float.
Definition kMinBufferSize : Z := 64.

Record DSPKernel : Type := mkDSPKernel {
  processingBuffer : Z;
  maxFrames : Z;
  isInitialized : bool;
  sampleRate : float;
  channelCount : Z;
  isBypassed : bool;
  isProcessing : bool;
  simdAlignedBuffer : Z;
  bufferCapacity : Z
}.

(** [DSPKernel::DSPKernel()]. *)
Definition DSPKernel_ctor : DSPKernel :=
  mkDSPKernel nullptr 0 false kDefaultSampleRate 0 false false nullptr 0.

(** [void setBypassed(bool shouldBypass)]: [std::atomic_store] on
    [isBypassed]. *)
Definition setBypassed (shouldBypass : bool) (k : DSPKernel) : DSPKernel :=
  mkDSPKernel (processingBuffer k) (maxFrames k) (isInitialized k) (sampleRate k)
              (channelCount k) shouldBypass (isProcessing k) (simdAlignedBuffer k)
              (bufferCapacity k).

(** A control thread's successive calls, oldest first. *)
Definition setBypassed_all (bs : list bool) (k : DSPKernel) : DSPKernel :=
  fold_left (fun k b => setBypassed b k) bs k.

End IOS.

(** ** A concrete system: a bump allocator with chunk headers

    Used to run the code on concrete inputs. Blocks are carved upwards from
    [heap_base]; every block is preceded by a [chunk_header] of bookkeeping
    bytes and its base is rounded up to the requested alignment. With a
    [limit], a block that would end above it is refused. *)

Module Bump.

Definition heap_base : Z := 4096.
Definition chunk_header : Z := 16.

Definition heap_top (l : list (Z * Z)) : Z :=
  fold_right (fun b acc => Z.max (fst b + Z.max 0 (snd b)) acc) heap_base l.

Definition round_up (x a : Z) : Z := (x + a - 1) / a * a.

Definition place (limit : option Z) (w : World) (a s : Z) : option Z :=
  let p := round_up (heap_top (live w) + chunk_header) (Z.max 1 a) in
  match limit with
  | None => Some p
  | Some lim => if p + s <=? lim then Some p else None
  end.

Definition fftsetup (w : World) (log2n : Z) : option Z :=
  Some (Z.of_nat (List.length (setups w)) + 1).

Definition system (limit : option Z) : System :=
  {| sys_place := place limit; new_alignment := 16; sys_fftsetup := fftsetup |}.

(** The same allocator next to a transform facility that cannot create a
    setup. *)
Definition system_without_fft (limit : option Z) : System :=
  {| sys_place := place limit; new_alignment := 16; sys_fftsetup := fun _ _ => None |}.

(** Nothing allocated, memory filled with a non-zero pattern, no call made. *)
Definition fresh_world : World := mkWorld [] (fun _ => xaa) [] [].

End Bump.

(** ** Vocabulary of the statements *)

(** A power of two, as the arithmetic has it. *)
Definition power_of_two (a : Z) : Prop := exists k, 0 <= k /\ a = 2 ^ k.

(** The test [(alignment & (alignment - 1)) != 0] of the source, negated. *)
Definition passes_bit_test (a : Z) : bool := Z.land a (wrap64 (a - 1)) =? 0.

(** The alignment [alignedMalloc] hands to [posix_memalign]. *)
Definition effective_alignment (a : Z) : Z :=
  if a <? MacOS.DSP_ALIGNMENT then MacOS.DSP_ALIGNMENT else a.


(** Within the valid bounds. *)
Definition in_bounds (sampleRate : float) (channels : Z) : Prop :=
  (MacOS.MIN_SAMPLE_RATE <=? sampleRate)%float = true /\
  (sampleRate <=? MacOS.MAX_SAMPLE_RATE)%float = true /\
  0 < channels <= MacOS.MAX_CHANNELS.

(** The kernel that [DSPKernel(48000.0, 2)] builds on the bump allocator. *)
Definition sample_kernel : MacOS.DSPKernel :=
  MacOS.mkDSPKernel 4160 69760 0 2 48000%float (MacOS.mkVector 135312 16384)
                    false false 1 200864.

(** The world after a successful [alignedMalloc] with [CACHE_LINE_SIZE]:
    the call logged, the block live, its bytes zeroed. *)
Definition after_aligned (p bytes : Z) (w : World) : World :=
  fill p x00 bytes
       (add_block p bytes (log_call (call_posix_memalign MacOS.CACHE_LINE_SIZE bytes) w)).

(** The world after a successful zero-initialising [new]. *)
Definition after_new (p bytes : Z) (w : World) : World :=
  fill p x00 bytes (add_block p bytes (log_call (call_operator_new bytes) w)).

(** The world after [vDSP_create_fftsetup] answered [r]. *)
Definition after_fftsetup (log2n : Z) (r : option Z) (w : World) : World :=
  match r with
  | Some h => add_setup h (log_call (call_create_fftsetup log2n) w)
  | None => log_call (call_create_fftsetup log2n) w
  end.

(** The handle a [vDSP_create_fftsetup] answer leaves in [fftSetup]. *)
Definition setup_handle (r : option Z) : Z :=
  match r with Some h => h | None => nullptr end.

(** The transform facility hands out non-null setups that are not in use. *)
Definition FreshSetups (S : System) : Prop :=
  forall w log2n h, sys_fftsetup w log2n = Some h -> h <> nullptr /\ ~ In h (setups w).

(** The bump allocator next to a transform facility that numbers its setups
    above every one alive. *)
Definition numbering_fftsetup (w : World) (log2n : Z) : option Z :=
  Some (1 + fold_right Z.max 0 (setups w)).

Definition numbering_system (limit : option Z) : System :=
  {| sys_place := Bump.place limit; new_alignment := 16; sys_fftsetup := numbering_fftsetup |}.

(** The constructor's two guards, as the source writes them. *)
Definition sample_rate_rejected (sampleRate : float) : bool :=
  ((sampleRate <? MacOS.MIN_SAMPLE_RATE) || (MacOS.MAX_SAMPLE_RATE <? sampleRate))%float.

Definition channels_rejected (channels : Z) : bool :=
  (channels <=? 0) || (MacOS.MAX_CHANNELS <? channels).

(** One [alignedMalloc(bytes, CACHE_LINE_SIZE)] on a conforming system: the
    pointer it returns and the world it leaves. *)
Definition aligned_step {S : System} (bytes : Z) (w : World) : Z * World :=
  match sys_place w MacOS.CACHE_LINE_SIZE bytes with
  | None => (nullptr, log_call (call_posix_memalign MacOS.CACHE_LINE_SIZE bytes) w)
  | Some p => (p, after_aligned p bytes w)
  end.

(** What [throw E(what)] does in world [w]: the message is placed and the
    exception leaves with its message block live, or the message cannot be
    placed and [std::bad_alloc] leaves instead. *)
Definition message_throw {S : System} {A : Type} (E : string -> exn) (what : string)
           (w : World) : result A * World :=
  match sys_place w new_alignment (what_bytes what) with
  | Some p =>
      (Throw (E what),
       add_block p (what_bytes what) (log_call (call_operator_new (what_bytes what)) w))
  | None => (Throw bad_alloc, log_call (call_operator_new (what_bytes what)) w)
  end.

(** The allocator serves the four requests a construction with [channels]
    channels makes from world [w], and answers them with [inp], [out], [pb]
    and [t]: the input and the output buffer asked at [CACHE_LINE_SIZE], then
    the storage of the processing vector and of the temporary buffer asked at
    the alignment of [operator new]. *)
Definition ctor_requests_served {S : System} (channels : Z) (w : World)
           (inp out pb t : Z) : Prop :=
  let bytes := MacOS.buffer_bytes channels in
  let w1 := after_aligned inp bytes w in
  let w2 := after_aligned out bytes w1 in
  let w3 := after_new pb bytes w2 in
  let w4 := after_fftsetup 14 (sys_fftsetup w3 14) w3 in
  sys_place w MacOS.CACHE_LINE_SIZE bytes = Some inp /\
  sys_place w1 MacOS.CACHE_LINE_SIZE bytes = Some out /\
  sys_place w2 new_alignment bytes = Some pb /\
  sys_place w4 new_alignment bytes = Some t.

(** The world [alignedFree(p)] leaves. *)
Definition release (p : Z) (w : World) : World := snd (MacOS.alignedFree p w).

(** The outcome of the constructor once both guards are passed, written as
    one case analysis on the answers of the runtime. *)
Definition ctor_outcome {S : System} (sampleRate : float) (channels : Z) (w : World)
  : result MacOS.DSPKernel * World :=
  let bytes := MacOS.buffer_bytes channels in
  let s1 := aligned_step bytes w in
  let s2 := aligned_step bytes (snd s1) in
  let inp := fst s1 in
  let out := fst s2 in
  let w2 := snd s2 in
  if (inp =? nullptr) || (out =? nullptr) then
    message_throw runtime_error "Failed to allocate aligned buffers"
                  (release out (release inp w2))
  else
    match sys_place w2 new_alignment bytes with
    | None => (Throw bad_alloc, log_call (call_operator_new bytes) w2)
    | Some pb =>
        let w3 := after_new pb bytes w2 in
        let r := sys_fftsetup w3 14 in
        let w4 := after_fftsetup 14 r w3 in
        match sys_place w4 new_alignment bytes with
        | None =>
            (Throw bad_alloc,
             drop_block pb (log_call (call_operator_delete pb)
                                     (log_call (call_operator_new bytes) w4)))
        | Some t =>
            (Ok (MacOS.mkDSPKernel inp out 0 channels sampleRate
                                   (MacOS.mkVector pb (MacOS.buffer_samples channels))
                                   false false (setup_handle r) t),
             after_new t bytes w4)
        end
    end.

(** * Properties *)

(** ** [double] comparisons *)

Lemma SFcompare_Lt_swap (x y : spec_float) :
  SFcompare y x = Some Lt -> SFcompare x y = Some Gt.
Proof.
  destruct x as [sx| sx| |sx mx ex], y as [sy| sy| |sy my ey]; simpl;
    try discriminate;
    try (destruct sx; discriminate);
    try (destruct sy; discriminate);
    try (destruct sx, sy; first [discriminate | reflexivity]).
  destruct sx, sy; try discriminate; try reflexivity;
    rewrite (Z.compare_antisym ey ex);
    destruct (ey ?= ex) eqn:E; simpl; try discriminate; try reflexivity;
    change (Pos.compare_cont Eq mx my) with (mx ?= my)%positive;
    change (Pos.compare_cont Eq my mx) with (my ?= mx)%positive;
    rewrite (Pos.compare_antisym my mx);
    destruct (my ?= mx)%positive; simpl; intros H;
    try discriminate; reflexivity.
Qed.

(** [a <= b] excludes [b < a], also for infinities; a NaN satisfies neither. *)
Lemma leb_excludes_ltb (a b : float) :
  (a <=? b)%float = true -> (b <? a)%float = false.
Proof.
  rewrite leb_spec, ltb_spec. unfold SFleb, SFltb.
  destruct (SFcompare (Prim2SF b) (Prim2SF a)) as [[| |]|] eqn:E; try reflexivity.
  rewrite (SFcompare_Lt_swap _ _ E). discriminate.
Qed.

(** ** Powers of two and the bit test of [alignedMalloc] *)

Lemma wrap64_small (x : Z) : 0 <= x < 2 ^ 64 -> wrap64 x = x.
Proof. intros H. unfold wrap64, SIZE_WIDTH. apply Z.mod_small. exact H. Qed.

Lemma is_pow2_iff (a : Z) : is_pow2 a = true <-> power_of_two a.
Proof.
  unfold is_pow2, power_of_two. rewrite andb_true_iff, Z.ltb_lt, Z.eqb_eq. split.
  - intros [Hpos Heq]. exists (Z.log2 a). split; [apply Z.log2_nonneg | exact Heq].
  - intros [k [Hk Ha]]. subst a. split.
    + apply Z.pow_pos_nonneg; lia.
    + rewrite Z.log2_pow2 by exact Hk. reflexivity.
Qed.

Lemma pow2_passes_bit_test (a : Z) :
  power_of_two a -> a < 2 ^ 64 -> passes_bit_test a = true.
Proof.
  intros [k [Hk Ha]] Hlt. subst a. unfold passes_bit_test.
  assert (Hpos : 0 < 2 ^ k) by (apply Z.pow_pos_nonneg; lia).
  rewrite wrap64_small by lia.
  replace (2 ^ k - 1) with (Z.ones k) by (rewrite Z.ones_equiv; lia).
  rewrite Z.land_ones by exact Hk.
  rewrite Z.mod_same by lia. reflexivity.
Qed.

Lemma zero_passes_bit_test : passes_bit_test 0 = true.
Proof. reflexivity. Qed.

(** A positive [size_t] that passes the bit test is a power of two. *)
Lemma bit_test_pow2 (a : Z) :
  0 < a < 2 ^ 64 -> passes_bit_test a = true -> a = 2 ^ Z.log2 a.
Proof.
  intros Hr Hbit. unfold passes_bit_test in Hbit. apply Z.eqb_eq in Hbit.
  rewrite wrap64_small in Hbit by lia.
  destruct (Z.log2_spec a) as [Hlo Hhi]; [lia|].
  destruct (Z.eq_dec a (2 ^ Z.log2 a)) as [E|NE]; [exact E|exfalso].
  assert (Hk : 0 <= Z.log2 a) by apply Z.log2_nonneg.
  assert (Hlog : Z.log2 (a - 1) = Z.log2 a).
  { apply Z.log2_unique; [exact Hk|]. lia. }
  assert (Ha : Z.testbit a (Z.log2 a) = true) by (apply Z.bit_log2; lia).
  assert (Hb : Z.testbit (a - 1) (Z.log2 a) = true).
  { rewrite <- Hlog. apply Z.bit_log2.
    assert (0 < 2 ^ Z.log2 a) by (apply Z.pow_pos_nonneg; lia). lia. }
  assert (Hc : Z.testbit (Z.land a (a - 1)) (Z.log2 a) = true).
  { rewrite Z.land_spec, Ha, Hb. reflexivity. }
  rewrite Hbit, Z.bits_0 in Hc. discriminate.
Qed.

Lemma bit_test_is_pow2 (a : Z) :
  0 < a < 2 ^ 64 -> passes_bit_test a = true -> power_of_two a.
Proof.
  intros Hr Hbit. exists (Z.log2 a). split; [apply Z.log2_nonneg|].
  apply bit_test_pow2; assumption.
Qed.

Lemma effective_alignment_ge (a : Z) : MacOS.DSP_ALIGNMENT <= effective_alignment a.
Proof.
  unfold effective_alignment. destruct (a <? MacOS.DSP_ALIGNMENT) eqn:E.
  - lia.
  - apply Z.ltb_ge in E. exact E.
Qed.

Lemma effective_alignment_max (a : Z) :
  effective_alignment a = Z.max a MacOS.DSP_ALIGNMENT.
Proof.
  unfold effective_alignment. destruct (a <? MacOS.DSP_ALIGNMENT) eqn:E.
  - apply Z.ltb_lt in E. lia.
  - apply Z.ltb_ge in E. lia.
Qed.

(** Whatever passes the bit test is, once raised to [DSP_ALIGNMENT], an
    alignment [posix_memalign] accepts: [EINVAL] cannot happen. *)
Lemma effective_alignment_valid (a : Z) :
  0 <= a < 2 ^ 64 -> passes_bit_test a = true ->
  is_pow2 (effective_alignment a) && (effective_alignment a mod sizeof_voidp =? 0) = true.
Proof.
  intros Hr Hbit. unfold effective_alignment.
  destruct (a <? MacOS.DSP_ALIGNMENT) eqn:E; [reflexivity|].
  apply Z.ltb_ge in E. unfold MacOS.DSP_ALIGNMENT in E.
  assert (Hp : a = 2 ^ Z.log2 a) by (apply bit_test_pow2; [lia|exact Hbit]).
  assert (Hl : 4 <= Z.log2 a).
  { change 4 with (Z.log2 16). apply Z.log2_le_mono. exact E. }
  apply andb_true_iff. split.
  - apply is_pow2_iff. exists (Z.log2 a). split; [lia|exact Hp].
  - apply Z.eqb_eq. rewrite Hp. unfold sizeof_voidp.
    replace (Z.log2 a) with (3 + (Z.log2 a - 3)) by lia.
    rewrite Z.pow_add_r by lia. change (2 ^ 3) with 8.
    rewrite Z.mul_comm. apply Z.mod_mul. lia.
Qed.

(** ** [alignedMalloc] and [alignedFree], step by step *)

Section AlignedMemory.
Context {S : System}.

(** The whole of [alignedMalloc] as one case analysis on what the runtime
    answers. *)
Lemma alignedMalloc_unfold (size a : Z) (w : World) :
  MacOS.alignedMalloc size a w =
  if negb (passes_bit_test a) then (Ok nullptr, w)
  else
    let a' := effective_alignment a in
    let w0 := log_call (call_posix_memalign a' size) w in
    if negb (is_pow2 a' && (a' mod sizeof_voidp =? 0)) then (Ok nullptr, w0)
    else match sys_place w a' size with
         | None => (Ok nullptr, w0)
         | Some p =>
             if p =? nullptr then (Ok p, add_block p size w0)
             else (Ok p, fill p x00 size (add_block p size w0))
         end.
Proof.
  unfold MacOS.alignedMalloc, passes_bit_test, effective_alignment.
  destruct (negb (Z.land a (wrap64 (a - 1)) =? 0)); [reflexivity|].
  cbv zeta. unfold bind, posix_memalign.
  destruct (negb (is_pow2 _ && _)); [reflexivity|].
  destruct (sys_place w _ size) as [p|]; [|reflexivity].
  cbn [fst snd]. change (0 =? 0) with true. cbn [negb].
  destruct (p =? nullptr); reflexivity.
Qed.

(** [alignedMalloc] always returns; it never leaves by an exception. *)
Lemma alignedMalloc_returns (size a : Z) (w : World) :
  exists p w', MacOS.alignedMalloc size a w = (Ok p, w').
Proof.
  rewrite alignedMalloc_unfold.
  destruct (negb (passes_bit_test a)); [eauto|].
  cbv zeta. destruct (negb (is_pow2 _ && _)); [eauto|].
  destruct (sys_place w _ size) as [p|]; [|eauto].
  destruct (p =? nullptr); eauto.
Qed.

(** A failed [alignedMalloc] on a conforming system allocates nothing; a
    successful one adds exactly the returned block, fresh, aligned to the
    effective alignment and zero-filled. *)
Lemma alignedMalloc_spec {HS : Conforming S} (size a : Z) (w : World) (p : Z) (w' : World) :
  MacOS.alignedMalloc size a w = (Ok p, w') ->
  (p = nullptr /\ live w' = live w /\ mem w' = mem w /\ setups w' = setups w) \/
  (0 < p /\ passes_bit_test a = true /\
   sys_place w (effective_alignment a) size = Some p /\
   live w' = (p, size) :: live w /\
   setups w' = setups w /\
   calls w' = call_posix_memalign (effective_alignment a) size :: calls w /\
   p mod effective_alignment a = 0 /\
   ~ In p (map fst (live w)) /\
   forall i, 0 <= i < size -> mem w' (p + i) = x00).
Proof.
  rewrite alignedMalloc_unfold.
  destruct (passes_bit_test a) eqn:Hbit; cbn [negb].
  2:{ intros H. injection H as <- <-. left. repeat split; reflexivity. }
  cbv zeta. destruct (negb (is_pow2 _ && _)).
  { intros H. injection H as <- <-. left. repeat split; reflexivity. }
  destruct (sys_place w (effective_alignment a) size) as [q|] eqn:Hq.
  2:{ intros H. injection H as <- <-. left. repeat split; reflexivity. }
  pose proof (place_nonnull _ _ _ _ Hq) as Hnn.
  destruct (q =? nullptr) eqn:Hz.
  { apply Z.eqb_eq in Hz. unfold nullptr in Hz. lia. }
  intros H. injection H as <- <-. right.
  repeat split; try reflexivity; try lia.
  - apply (place_aligned _ _ _ _ Hq).
    pose proof (effective_alignment_ge a). unfold MacOS.DSP_ALIGNMENT in *. lia.
  - exact (place_fresh _ _ _ _ Hq).
  - intros i Hi. cbn.
    replace ((q <=? q + i) && (q + i <? q + size)) with true; [reflexivity|].
    symmetry. apply andb_true_iff. split; [apply Z.leb_le|apply Z.ltb_lt]; lia.
Qed.

Lemma alignedFree_null (w : World) : MacOS.alignedFree nullptr w = (Ok tt, w).
Proof. reflexivity. Qed.

Lemma alignedFree_nonnull (p : Z) (w : World) :
  p <> nullptr ->
  MacOS.alignedFree p w = (Ok tt, drop_block p (log_call (call_free p) w)).
Proof.
  intros Hp. unfold MacOS.alignedFree, free.
  destruct (p =? nullptr) eqn:E; [apply Z.eqb_eq in E; contradiction|].
  reflexivity.
Qed.

(** Dropping the block at a base that no other live block has gives back the
    list without it. *)
Lemma filter_drop_fresh (p size : Z) (l : list (Z * Z)) :
  ~ In p (map fst l) ->
  filter (fun b => negb (fst b =? p)) ((p, size) :: l) = l.
Proof.
  intros Hfresh. cbn. rewrite Z.eqb_refl. cbn.
  induction l as [|[q s] l IH]; [reflexivity|].
  cbn in *. destruct (q =? p) eqn:E.
  - apply Z.eqb_eq in E. exfalso. apply Hfresh. left. exact E.
  - cbn. f_equal. apply IH. intros H. apply Hfresh. right. exact H.
Qed.

End AlignedMemory.

(** ** The bump allocator conforms *)

Lemma round_up_multiple (x a : Z) : 0 < a -> Bump.round_up x a mod a = 0.
Proof. intros Ha. unfold Bump.round_up. apply Z.mod_mul. lia. Qed.

Lemma round_up_ge (x a : Z) : 0 < a -> x <= Bump.round_up x a.
Proof.
  intros Ha. unfold Bump.round_up.
  pose proof (Z.div_mod (x + a - 1) a ltac:(lia)) as Hdm.
  pose proof (Z.mod_pos_bound (x + a - 1) a Ha) as Hb.
  lia.
Qed.

Lemma heap_top_ge_base (l : list (Z * Z)) : Bump.heap_base <= Bump.heap_top l.
Proof.
  induction l as [|b l IH]; cbn; [lia|].
  fold (Bump.heap_top l). lia.
Qed.

Lemma heap_top_above (l : list (Z * Z)) (p : Z) :
  In p (map fst l) -> p <= Bump.heap_top l.
Proof.
  induction l as [|b l IH]; cbn; [contradiction|].
  fold (Bump.heap_top l). intros [E|Hin].
  - subst p. lia.
  - specialize (IH Hin). lia.
Qed.

Lemma bump_place_some (limit : option Z) (w : World) (a s p : Z) :
  Bump.place limit w a s = Some p ->
  p = Bump.round_up (Bump.heap_top (live w) + Bump.chunk_header) (Z.max 1 a).
Proof.
  unfold Bump.place. destruct limit as [lim|].
  - destruct (_ <=? lim); [|discriminate]. intros H. injection H as <-. reflexivity.
  - intros H. injection H as <-. reflexivity.
Qed.

Lemma bump_conforming (limit : option Z) : Conforming (Bump.system limit).
Proof.
  constructor; cbn.
  - intros w a s p Hp Ha. apply bump_place_some in Hp. subst p.
    replace (Z.max 1 a) with a by lia. apply round_up_multiple. exact Ha.
  - intros w a s p Hp. apply bump_place_some in Hp. subst p.
    pose proof (round_up_ge (Bump.heap_top (live w) + Bump.chunk_header) (Z.max 1 a) ltac:(lia)).
    pose proof (heap_top_ge_base (live w)).
    unfold Bump.heap_base, Bump.chunk_header in *. lia.
  - intros w a s p Hp Hin. apply bump_place_some in Hp. subst p.
    apply heap_top_above in Hin.
    pose proof (round_up_ge (Bump.heap_top (live w) + Bump.chunk_header) (Z.max 1 a) ltac:(lia)).
    unfold Bump.chunk_header in *. lia.
  - lia.
Qed.

Lemma bump_inexhaustible : Inexhaustible (Bump.system None).
Proof. intros w a s. cbn. discriminate. Qed.

(** ** [alignedMalloc]: alignment, failure and zero-initialisation *)

Lemma power_of_two_pos (a : Z) : power_of_two a -> 0 < a.
Proof. intros [k [Hk Ha]]. subst a. apply Z.pow_pos_nonneg; lia. Qed.

(** An alignment of [DSP_ALIGNMENT] or more is handed on as it is. *)
Lemma effective_alignment_keeps (a : Z) :
  MacOS.DSP_ALIGNMENT <= a -> effective_alignment a = a.
Proof. intros H. rewrite effective_alignment_max. lia. Qed.

Lemma effective_alignment_raises (a : Z) :
  a < MacOS.DSP_ALIGNMENT -> effective_alignment a = MacOS.DSP_ALIGNMENT.
Proof. intros H. rewrite effective_alignment_max. lia. Qed.

(** A non-zero [size_t] alignment that is not a power of two is refused
    before the runtime is asked for anything. *)
Lemma alignedMalloc_rejects_non_pow2 {S : System} (size a : Z) (w : World) :
  0 < a < 2 ^ 64 -> ~ power_of_two a ->
  MacOS.alignedMalloc size a w = (Ok nullptr, w).
Proof.
  intros Hr Hnp. rewrite alignedMalloc_unfold.
  destruct (passes_bit_test a) eqn:Hbit; [|reflexivity].
  exfalso. apply Hnp. apply bit_test_is_pow2; assumption.
Qed.

(** When the allocator cannot place the block, the result is [nullptr] and
    nothing is allocated. *)
Lemma alignedMalloc_null_when_exhausted {S : System} (size a : Z) (w : World) :
  sys_place w (effective_alignment a) size = None ->
  exists w', MacOS.alignedMalloc size a w = (Ok nullptr, w') /\ live w' = live w.
Proof.
  intros Hnone. rewrite alignedMalloc_unfold.
  destruct (negb (passes_bit_test a)); [eauto|].
  cbv zeta. destruct (negb (is_pow2 _ && _)); [eauto|].
  rewrite Hnone. eauto.
Qed.

(** Alignment 0 passes the bit test and is served like any alignment below
    [DSP_ALIGNMENT]. *)
Lemma alignedMalloc_zero_alignment {S : System} {HS : Conforming S}
      (size : Z) (w : World) (q : Z) :
  sys_place w MacOS.DSP_ALIGNMENT size = Some q ->
  exists w', MacOS.alignedMalloc size 0 w = (Ok q, w') /\ q <> nullptr /\
             live w' = (q, size) :: live w.
Proof.
  intros Hq. rewrite alignedMalloc_unfold. cbn [negb].
  change (passes_bit_test 0) with true. cbn [negb]. cbv zeta.
  change (effective_alignment 0) with MacOS.DSP_ALIGNMENT.
  change (negb (is_pow2 MacOS.DSP_ALIGNMENT && (MacOS.DSP_ALIGNMENT mod sizeof_voidp =? 0)))
    with false.
  cbv iota. rewrite Hq.
  pose proof (place_nonnull _ _ _ _ Hq) as Hnn.
  destruct (q =? nullptr) eqn:E.
  - apply Z.eqb_eq in E. unfold nullptr in E. lia.
  - eexists. split; [reflexivity|]. split; [unfold nullptr; lia|reflexivity].
Qed.

(** What the clamp of [alignedMalloc] does: for every power-of-two alignment
    argument below [DSP_ALIGNMENT] (16 bytes, the SIMD alignment, not the
    64-byte cache line), the alignment asked of [posix_memalign] is
    [DSP_ALIGNMENT], and the address of a returned block is a multiple of
    it. *)
Lemma alignedMalloc_raises_to_DSP_ALIGNMENT {S : System} {HS : Conforming S}
        (size alignment : Z) (w : World) (p : Z) (w' : World) :
  power_of_two alignment ->
  alignment < MacOS.DSP_ALIGNMENT ->
  MacOS.alignedMalloc size alignment w = (Ok p, w') ->
  calls w' = call_posix_memalign MacOS.DSP_ALIGNMENT size :: calls w /\
  (p <> nullptr -> p mod MacOS.DSP_ALIGNMENT = 0).
Proof.
  intros Hpow Hlt Hrun.
  assert (Hbit : passes_bit_test alignment = true).
  { apply pow2_passes_bit_test; [exact Hpow|]. unfold MacOS.DSP_ALIGNMENT in Hlt. lia. }
  split.
  - rewrite alignedMalloc_unfold in Hrun. rewrite Hbit in Hrun. cbn [negb] in Hrun.
    cbv zeta in Hrun. rewrite (effective_alignment_raises _ Hlt) in Hrun.
    change (negb (is_pow2 MacOS.DSP_ALIGNMENT && (MacOS.DSP_ALIGNMENT mod sizeof_voidp =? 0)))
      with false in Hrun.
    cbv iota in Hrun.
    destruct (sys_place w MacOS.DSP_ALIGNMENT size) as [q|].
    + destruct (q =? nullptr); injection Hrun as <- <-; reflexivity.
    + injection Hrun as <- <-. reflexivity.
  - intros Hp. destruct (alignedMalloc_spec _ _ _ _ _ Hrun) as [[Hnull _]|Hok].
    + contradiction.
    + destruct Hok as (_ & _ & _ & _ & _ & _ & Hal & _).
      rewrite (effective_alignment_raises _ Hlt) in Hal. exact Hal.
Qed.

(** The same for the alignments the clamp leaves alone: a power of two of
    [DSP_ALIGNMENT] or more is the alignment of the returned block. *)
Lemma alignedMalloc_keeps_alignment {S : System} {HS : Conforming S}
      (size alignment : Z) (w : World) (p : Z) (w' : World) :
  MacOS.DSP_ALIGNMENT <= alignment ->
  MacOS.alignedMalloc size alignment w = (Ok p, w') ->
  p <> nullptr ->
  calls w' = call_posix_memalign alignment size :: calls w /\ p mod alignment = 0.
Proof.
  intros Hge Hrun Hp.
  destruct (alignedMalloc_spec _ _ _ _ _ Hrun) as [[Hnull _]|Hok]; [contradiction|].
  destruct Hok as (_ & _ & _ & _ & _ & Hcalls & Hal & _).
  rewrite (effective_alignment_keeps _ Hge) in Hcalls, Hal. split; assumption.
Qed.

(** C6: every block [alignedMalloc] returns reads as zero, byte by byte. *)
Theorem alignedMalloc_zero_initialized {S : System}
        (size alignment : Z) (w : World) (p : Z) (w' : World) :
  MacOS.alignedMalloc size alignment w = (Ok p, w') ->
  p <> nullptr ->
  forall i, 0 <= i < size -> mem w' (p + i) = x00.
Proof.
  rewrite alignedMalloc_unfold. intros Hrun Hp i Hi.
  destruct (negb (passes_bit_test alignment)).
  { injection Hrun as <- <-. contradiction. }
  cbv zeta in Hrun. destruct (negb (is_pow2 _ && _)).
  { injection Hrun as <- <-. contradiction. }
  destruct (sys_place w _ size) as [q|].
  2:{ injection Hrun as <- <-. contradiction. }
  destruct (q =? nullptr) eqn:E.
  { apply Z.eqb_eq in E. injection Hrun as <- <-. contradiction. }
  injection Hrun as <- <-. cbn.
  replace ((q <=? q + i) && (q + i <? q + size)) with true; [reflexivity|].
  symmetry. apply andb_true_iff. split; [apply Z.leb_le|apply Z.ltb_lt]; lia.
Qed.

Lemma alignedMalloc_raises_to_DSP_ALIGNMENT_witness :
  let r := MacOS.alignedMalloc (S := Bump.system None) 64 8 Bump.fresh_world in
  power_of_two 8 /\ 8 < MacOS.DSP_ALIGNMENT /\ fst r = Ok 4112 /\
  calls (snd r) = [call_posix_memalign 16 64] /\ 4112 mod 16 = 0.
Proof.
  intros r.
  assert (Hpow : power_of_two 8) by (exists 3; split; [lia|reflexivity]).
  assert (Hlt : 8 < MacOS.DSP_ALIGNMENT) by reflexivity.
  assert (Hnn : 4112 <> nullptr) by discriminate.
  destruct (alignedMalloc_raises_to_DSP_ALIGNMENT
              (S := Bump.system None) (HS := bump_conforming None)
              64 8 Bump.fresh_world 4112 (snd r) Hpow Hlt eq_refl) as [Hcalls Hal].
  split; [exact Hpow|]. split; [exact Hlt|]. split; [reflexivity|].
  split; [exact Hcalls | exact (Hal Hnn)].
Defined.

Lemma alignedMalloc_zero_initialized_witness :
  let r := MacOS.alignedMalloc (S := Bump.system None) 256 64 Bump.fresh_world in
  fst r = Ok 4160 /\ mem Bump.fresh_world (4160 + 255) = xaa /\
  mem (snd r) (4160 + 255) = x00.
Proof.
  intros r. split; [reflexivity|]. split; [reflexivity|].
  apply (alignedMalloc_zero_initialized (S := Bump.system None)
           256 64 Bump.fresh_world 4160 (snd r)).
  - reflexivity.
  - discriminate.
  - lia.
Defined.

(** C4 on the input the code gets wrong: 32 is a power of two below the
    cache-line size, and [alignedMalloc(64, 32)] does not raise it: the
    alignment asked of [posix_memalign] is 32, not 64, and the block returned
    sits at 4128, which is not a multiple of 64, although the function's
    brief promises cache-line aligned memory. *)
Theorem alignedMalloc_32_not_cache_line_aligned :
  let r := MacOS.alignedMalloc (S := Bump.system None) 64 32 Bump.fresh_world in
  power_of_two 32 /\ 32 < MacOS.CACHE_LINE_SIZE /\
  fst r = Ok 4128 /\
  calls (snd r) = [call_posix_memalign 32 64] /\
  4128 mod MacOS.CACHE_LINE_SIZE <> 0.
Proof.
  intros r. split; [exists 5; split; [lia|reflexivity]|].
  split; [reflexivity|]. split; [reflexivity|]. split; [reflexivity|].
  discriminate.
Qed.

(** C5 on the input the code gets wrong: 0 is not a power of two, yet
    [alignedMalloc(64, 0)] does not return [nullptr]; it allocates a block
    with the alignment raised to [DSP_ALIGNMENT]. *)
Theorem alignedMalloc_accepts_zero_alignment :
  let r := MacOS.alignedMalloc (S := Bump.system None) 64 0 Bump.fresh_world in
  ~ power_of_two 0 /\
  fst r = Ok 4112 /\ 4112 <> nullptr /\
  live (snd r) = [(4112, 64)] /\
  calls (snd r) = [call_posix_memalign 16 64].
Proof.
  intros r. split.
  - intros H. apply power_of_two_pos in H. lia.
  - split; [reflexivity|]. split; [discriminate|]. split; reflexivity.
Qed.

(** ** [alignedFree] *)

(** C9: [alignedFree(nullptr)] does nothing at all; on a block
    [alignedMalloc] has just returned it releases exactly that block (the
    live blocks are again those from before the allocation, memory contents
    and FFT setups are untouched); and in any world it removes the block at
    the given base and no other. *)
Theorem alignedFree_null_noop_and_releases_block {S : System} {HS : Conforming S} :
  (forall w, MacOS.alignedFree nullptr w = (Ok tt, w)) /\
  (forall size alignment w p w',
      MacOS.alignedMalloc size alignment w = (Ok p, w') -> p <> nullptr ->
      exists w'', MacOS.alignedFree p w' = (Ok tt, w'') /\
                  live w'' = live w /\ mem w'' = mem w' /\ setups w'' = setups w') /\
  (forall p w, p <> nullptr ->
      exists w'', MacOS.alignedFree p w = (Ok tt, w'') /\
                  forall b, In b (live w'') <-> In b (live w) /\ fst b <> p).
Proof.
  split; [exact alignedFree_null|]. split.
  - intros size alignment w p w' Hrun Hp.
    rewrite (alignedFree_nonnull p w' Hp). eexists. split; [reflexivity|].
    destruct (alignedMalloc_spec _ _ _ _ _ Hrun) as [[Hnull _]|Hok]; [contradiction|].
    destruct Hok as (_ & _ & _ & Hlive & _ & _ & _ & Hfresh & _).
    cbn. rewrite Hlive. repeat split. apply filter_drop_fresh. exact Hfresh.
  - intros p w Hp. rewrite (alignedFree_nonnull p w Hp). eexists. split; [reflexivity|].
    intros b. cbn. rewrite filter_In, negb_true_iff, Z.eqb_neq. reflexivity.
Qed.

Lemma alignedFree_null_noop_and_releases_block_witness :
  let r := MacOS.alignedMalloc (S := Bump.system None) 256 64 Bump.fresh_world in
  MacOS.alignedFree nullptr (snd r) = (Ok tt, snd r) /\
  fst r = Ok 4160 /\ live (snd r) = [(4160, 256)] /\
  exists w'', MacOS.alignedFree 4160 (snd r) = (Ok tt, w'') /\
              live w'' = [].
Proof.
  intros r.
  destruct (alignedFree_null_noop_and_releases_block
              (S := Bump.system None) (HS := bump_conforming None)) as [Hnull [Hrel _]].
  split; [apply Hnull|]. split; [reflexivity|]. split; [reflexivity|].
  destruct (Hrel 256 64 Bump.fresh_world 4160 (snd r) eq_refl ltac:(discriminate))
    as [w'' [Hfree [Hlive _]]].
  exists w''. split; [exact Hfree | exact Hlive].
Defined.

(** ** [isBufferAligned] *)

(** C8, as the code has it: [isBufferAligned(ptr)] takes no alignment; it is
    a pure check against the fixed [DSP_ALIGNMENT] (16 bytes). For every
    kernel, pointer and world it returns, leaves the world as it was, and
    answers [true] exactly when the address modulo [DSP_ALIGNMENT] is zero. *)
Theorem isBufferAligned_pure_check (k : MacOS.DSPKernel) (ptr : Z) (w : World) :
  exists b, MacOS.isBufferAligned k ptr w = (Ok b, w) /\
            (b = true <-> ptr mod MacOS.DSP_ALIGNMENT = 0).
Proof.
  exists (ptr mod MacOS.DSP_ALIGNMENT =? 0). split; [reflexivity|].
  apply Z.eqb_eq.
Qed.

(** C8 as stated fails for an alignment other than [DSP_ALIGNMENT]: address
    16 is reported aligned although 16 modulo the cache-line size is not
    zero. *)
Lemma isBufferAligned_not_for_every_alignment :
  MacOS.isBufferAligned sample_kernel 16 Bump.fresh_world = (Ok true, Bump.fresh_world) /\
  16 mod MacOS.CACHE_LINE_SIZE <> 0.
Proof. split; [reflexivity | discriminate]. Qed.

(** ** The constructor of the macOS kernel *)

Lemma in_bounds_passes_guards (sampleRate : float) (channels : Z) :
  in_bounds sampleRate channels ->
  ((sampleRate <? MacOS.MIN_SAMPLE_RATE) || (MacOS.MAX_SAMPLE_RATE <? sampleRate))%float = false /\
  (channels <=? 0) || (MacOS.MAX_CHANNELS <? channels) = false.
Proof.
  intros (Hlo & Hhi & Hch). split.
  - rewrite (leb_excludes_ltb _ _ Hlo), (leb_excludes_ltb _ _ Hhi). reflexivity.
  - apply orb_false_iff. split; [apply Z.leb_gt|apply Z.ltb_ge]; lia.
Qed.

(** The steps of the constructor, one equation each. *)

Lemma bind_Ok {A B} (m : M A) (f : A -> M B) (w w' : World) (a : A) :
  m w = (Ok a, w') -> bind m f w = f a w'.
Proof. intros H. unfold bind. rewrite H. reflexivity. Qed.

Lemma bind_Throw {A B} (m : M A) (f : A -> M B) (w w' : World) (e : exn) :
  m w = (Throw e, w') -> bind m f w = (Throw e, w').
Proof. intros H. unfold bind. rewrite H. reflexivity. Qed.

Lemma on_unwind_Ok {A} (m : M A) (c : M unit) (w w' : World) (a : A) :
  m w = (Ok a, w') -> on_unwind m c w = (Ok a, w').
Proof. intros H. unfold on_unwind. rewrite H. reflexivity. Qed.

Lemma on_unwind_Throw {A} (m : M A) (c : M unit) (w w' : World) (e : exn) :
  m w = (Throw e, w') -> on_unwind (A := A) m c w = (Throw e, snd (c w')).
Proof. intros H. unfold on_unwind. rewrite H. reflexivity. Qed.

Section Steps.
Context {S : System}.

Lemma operator_new_Ok (size : Z) (w : World) (p : Z) :
  sys_place w new_alignment size = Some p ->
  operator_new size w = (Ok p, add_block p size (log_call (call_operator_new size) w)).
Proof. intros H. unfold operator_new. rewrite H. reflexivity. Qed.

Lemma operator_new_Throw (size : Z) (w : World) :
  sys_place w new_alignment size = None ->
  operator_new size w = (Throw bad_alloc, log_call (call_operator_new size) w).
Proof. intros H. unfold operator_new. rewrite H. reflexivity. Qed.

(** [operator new] either returns a block or throws [std::bad_alloc]; in
    both cases the live blocks are those from before, plus the new one. *)
Lemma operator_new_cases (size : Z) (w : World) :
  (exists p, sys_place w new_alignment size = Some p /\
             operator_new size w =
               (Ok p, add_block p size (log_call (call_operator_new size) w))) \/
  (sys_place w new_alignment size = None /\
   operator_new size w = (Throw bad_alloc, log_call (call_operator_new size) w)).
Proof.
  destruct (sys_place w new_alignment size) as [p|] eqn:E.
  - left. exists p. split; [reflexivity|]. apply operator_new_Ok. exact E.
  - right. split; [reflexivity|]. apply operator_new_Throw. exact E.
Qed.

(** A request for a cache-line aligned block that the allocator can place
    succeeds with a non-null, 64-byte aligned address. *)
Lemma alignedMalloc_cache_line {HS : Conforming S} (size : Z) (w : World) (p : Z) :
  sys_place w MacOS.CACHE_LINE_SIZE size = Some p ->
  MacOS.alignedMalloc size MacOS.CACHE_LINE_SIZE w =
    (Ok p, fill p x00 size
             (add_block p size (log_call (call_posix_memalign MacOS.CACHE_LINE_SIZE size) w))) /\
  0 < p /\ p mod MacOS.CACHE_LINE_SIZE = 0.
Proof.
  intros Hp. pose proof (place_nonnull _ _ _ _ Hp) as Hnn.
  split; [|split; [exact Hnn | apply (place_aligned _ _ _ _ Hp); reflexivity]].
  rewrite alignedMalloc_unfold.
  change (passes_bit_test MacOS.CACHE_LINE_SIZE) with true. cbn [negb]. cbv zeta.
  change (effective_alignment MacOS.CACHE_LINE_SIZE) with MacOS.CACHE_LINE_SIZE.
  change (negb (is_pow2 MacOS.CACHE_LINE_SIZE && (MacOS.CACHE_LINE_SIZE mod sizeof_voidp =? 0)))
    with false.
  cbv iota. rewrite Hp.
  destruct (p =? nullptr) eqn:E; [|reflexivity].
  apply Z.eqb_eq in E. unfold nullptr in E. lia.
Qed.

End Steps.

(** ** The constructor with an allocator that does not fail *)

Section CtorSuccess.
Context {S : System} {HS : Conforming S}.

Lemma vector_resize_returns (n : Z) (v : MacOS.vector) (w : World) :
  Inexhaustible S -> exists v' w', MacOS.vector_resize n v w = (Ok v', w').
Proof.
  intros Hinex. unfold MacOS.vector_resize.
  destruct (n =? 0); [eexists; eexists; reflexivity|].
  destruct (operator_new_cases (wrap64 (n * sizeof_float)) w) as [(p & _ & Hnew)|[Hnone _]].
  - rewrite (bind_Ok _ _ _ _ _ Hnew). eexists; eexists; reflexivity.
  - exfalso. exact (Hinex _ _ _ Hnone).
Qed.

Lemma make_unique_returns (n : Z) (w : World) :
  Inexhaustible S ->
  exists t w', MacOS.make_unique n w = (Ok t, w') /\ t mod new_alignment = 0.
Proof.
  intros Hinex. unfold MacOS.make_unique.
  destruct (operator_new_cases (wrap64 (n * sizeof_float)) w) as [(p & Hp & Hnew)|[Hnone _]].
  - rewrite (bind_Ok _ _ _ _ _ Hnew). eexists. eexists. split; [reflexivity|].
    apply (place_aligned _ _ _ _ Hp). apply new_alignment_pos.
  - exfalso. exact (Hinex _ _ _ Hnone).
Qed.

Lemma vDSP_create_fftsetup_returns (log2n : Z) (w : World) :
  exists h w', vDSP_create_fftsetup log2n w = (Ok h, w').
Proof.
  unfold vDSP_create_fftsetup.
  destruct (sys_fftsetup w log2n); eexists; eexists; reflexivity.
Qed.

End CtorSuccess.

(** ** The failure paths of the constructor *)

Lemma alignedFree_cases (p : Z) (w : World) :
  exists w', MacOS.alignedFree p w = (Ok tt, w') /\
             setups w' = setups w /\ mem w' = mem w /\
             live w' = if p =? nullptr then live w
                       else filter (fun b => negb (fst b =? p)) (live w).
Proof.
  unfold MacOS.alignedFree, free. destruct (p =? nullptr); cbn [negb].
  - exists w. repeat split; reflexivity.
  - eexists. split; [reflexivity|]. repeat split; reflexivity.
Qed.

Section CtorRollback.
Context {S : System} {HS : Conforming S}.

Lemma vector_resize_cases (n : Z) (v : MacOS.vector) (w : World) :
  (exists v' w', MacOS.vector_resize n v w = (Ok v', w')) \/
  (exists w', MacOS.vector_resize n v w = (Throw bad_alloc, w')).
Proof.
  unfold MacOS.vector_resize.
  destruct (n =? 0); [left; eexists; eexists; reflexivity|].
  destruct (operator_new_cases (wrap64 (n * sizeof_float)) w) as [(p & _ & Hnew)|[_ Hnew]].
  - left. rewrite (bind_Ok _ _ _ _ _ Hnew). eexists; eexists; reflexivity.
  - right. rewrite (bind_Throw _ _ _ _ _ Hnew). eexists; reflexivity.
Qed.

Lemma make_unique_cases (n : Z) (w : World) :
  (exists t w', MacOS.make_unique n w = (Ok t, w')) \/
  (exists w', MacOS.make_unique n w = (Throw bad_alloc, w')).
Proof.
  unfold MacOS.make_unique.
  destruct (operator_new_cases (wrap64 (n * sizeof_float)) w) as [(p & _ & Hnew)|[_ Hnew]].
  - left. rewrite (bind_Ok _ _ _ _ _ Hnew). eexists; eexists; reflexivity.
  - right. rewrite (bind_Throw _ _ _ _ _ Hnew). eexists; reflexivity.
Qed.

End CtorRollback.

Lemma buffer_samples_in_bounds (channels : Z) :
  0 < channels <= MacOS.MAX_CHANNELS ->
  MacOS.buffer_samples channels = MacOS.MAX_BUFFER_SIZE * channels.
Proof.
  intros H. unfold MacOS.buffer_samples, MacOS.MAX_CHANNELS, MacOS.MAX_BUFFER_SIZE in *.
  rewrite (wrap64_small channels) by lia. apply wrap64_small. lia.
Qed.

(** The path the source misses, on every conforming system: once both
    aligned buffers are allocated, a [std::bad_alloc] from
    [processingBuffer.resize] leaves the constructor with the two blocks
    still live. *)
Lemma ctor_bad_alloc_keeps_aligned_buffers {S : System} {HS : Conforming S}
      (sampleRate : float) (channels : Z) (w : World) (inp out : Z) :
  in_bounds sampleRate channels ->
  let bytes := MacOS.buffer_bytes channels in
  let w1 := fill inp x00 bytes
              (add_block inp bytes
                 (log_call (call_posix_memalign MacOS.CACHE_LINE_SIZE bytes) w)) in
  let w2 := fill out x00 bytes
              (add_block out bytes
                 (log_call (call_posix_memalign MacOS.CACHE_LINE_SIZE bytes) w1)) in
  sys_place w MacOS.CACHE_LINE_SIZE bytes = Some inp ->
  sys_place w1 MacOS.CACHE_LINE_SIZE bytes = Some out ->
  sys_place w2 new_alignment (wrap64 (MacOS.buffer_samples channels * sizeof_float)) = None ->
  exists w',
    MacOS.DSPKernel_ctor sampleRate channels w = (Throw bad_alloc, w') /\
    live w' = (out, bytes) :: (inp, bytes) :: live w.
Proof.
  intros Hin bytes w1 w2 Ei Eo Enew.
  destruct (in_bounds_passes_guards _ _ Hin) as [Hg1 Hg2].
  unfold MacOS.DSPKernel_ctor. rewrite Hg1, Hg2.
  destruct (alignedMalloc_cache_line bytes w inp Ei) as (Hrun1 & Hinp & _).
  fold bytes. rewrite (bind_Ok _ _ _ _ _ Hrun1).
  destruct (alignedMalloc_cache_line bytes w1 out Eo) as (Hrun2 & Hout & _).
  fold w1. rewrite (bind_Ok _ _ _ _ _ Hrun2). fold w2.
  cbn [MacOS.inputBuffer MacOS.outputBuffer MacOS.processingBuffer
       MacOS.set_inputBuffer MacOS.set_outputBuffer].
  replace ((inp =? nullptr) || (out =? nullptr)) with false.
  2:{ symmetry. apply orb_false_iff. unfold nullptr. split; apply Z.eqb_neq; lia. }
  assert (Hv : MacOS.vector_resize (MacOS.buffer_samples channels) MacOS.vector_empty w2 =
               (Throw bad_alloc,
                log_call (call_operator_new
                            (wrap64 (MacOS.buffer_samples channels * sizeof_float))) w2)).
  { unfold MacOS.vector_resize.
    replace (MacOS.buffer_samples channels =? 0) with false.
    - apply bind_Throw. apply operator_new_Throw. exact Enew.
    - symmetry. apply Z.eqb_neq. destruct Hin as (_ & _ & Hch).
      rewrite (buffer_samples_in_bounds _ Hch).
      unfold MacOS.MAX_BUFFER_SIZE. lia. }
  rewrite (bind_Throw _ _ _ _ _ (on_unwind_Throw _ _ _ _ _ Hv)).
  eexists. split; [reflexivity|]. reflexivity.
Qed.

Lemma in_bounds_48000_stereo : in_bounds 48000%float 2.
Proof. repeat split; try reflexivity; discriminate. Qed.

(** C2 as stated fails: 48000 Hz and 2 channels are within bounds, the bump
    allocator conforms and never fails, the constructor succeeds, and the
    processing buffer (at 135312) and the temporary buffer (at 200864) are not
    at multiples of the cache-line size: [std::vector<float>] and
    [std::make_unique<float[]>] use the default allocator. *)
Lemma ctor_processing_and_temp_not_cache_line_aligned :
  let r := MacOS.DSPKernel_ctor (S := Bump.system None) 48000%float 2 Bump.fresh_world in
  in_bounds 48000%float 2 /\
  Conforming (Bump.system None) /\ Inexhaustible (Bump.system None) /\
  fst r = Ok sample_kernel /\
  live (snd r) = [(200864, 65536); (135312, 65536); (69760, 65536); (4160, 65536)] /\
  MacOS.inputBuffer sample_kernel mod MacOS.CACHE_LINE_SIZE = 0 /\
  MacOS.outputBuffer sample_kernel mod MacOS.CACHE_LINE_SIZE = 0 /\
  MacOS.vec_data (MacOS.processingBuffer sample_kernel) mod MacOS.CACHE_LINE_SIZE <> 0 /\
  MacOS.tempBuffer sample_kernel mod MacOS.CACHE_LINE_SIZE <> 0.
Proof.
  intros r. split; [exact in_bounds_48000_stereo|].
  split; [exact (bump_conforming None)|]. split; [exact bump_inexhaustible|].
  split; [vm_compute; reflexivity|]. split; [vm_compute; reflexivity|].
  split; [reflexivity|]. split; [reflexivity|]. split; discriminate.
Qed.

(** C3 on the inputs the code gets wrong. With room for the input and output
    buffers but not for the processing buffer, [processingBuffer.resize]
    throws [std::bad_alloc] and the constructor is left with both aligned
    buffers still allocated; with room for three buffers but not the fourth,
    [std::make_unique] throws and the input buffer, the output buffer and the
    FFT setup stay behind (the vector releases its own storage); and when
    [vDSP_create_fftsetup] fails, the result is not checked: the constructor
    returns a kernel whose [fftSetup] is null. Nothing was allocated before
    any of the three calls. *)
Theorem ctor_leaks_buffers_on_bad_alloc :
  let r := MacOS.DSPKernel_ctor (S := Bump.system (Some 200000)) 48000%float 2
                                Bump.fresh_world in
  let r' := MacOS.DSPKernel_ctor (S := Bump.system (Some 250000)) 48000%float 2
                                 Bump.fresh_world in
  let r'' := MacOS.DSPKernel_ctor (S := Bump.system_without_fft None) 48000%float 2
                                  Bump.fresh_world in
  live Bump.fresh_world = [] /\ setups Bump.fresh_world = [] /\
  fst r = Throw bad_alloc /\
  live (snd r) = [(69760, 65536); (4160, 65536)] /\
  fst r' = Throw bad_alloc /\
  live (snd r') = [(69760, 65536); (4160, 65536)] /\
  setups (snd r') = [1] /\
  fst r'' = Ok (MacOS.set_fftSetup nullptr sample_kernel).
Proof.
  intros r r' r''. split; [reflexivity|]. split; [reflexivity|].
  split; [vm_compute; reflexivity|]. split; [vm_compute; reflexivity|].
  split; [vm_compute; reflexivity|]. split; [vm_compute; reflexivity|].
  split; vm_compute; reflexivity.
Qed.

(** ** The iOS kernel *)

Lemma last_nonempty_default {A} (l : list A) (x d d' : A) :
  last (x :: l) d = last (x :: l) d'.
Proof.
  revert x. induction l as [|y l IH]; intros x; [reflexivity|].
  change (last (x :: y :: l) d) with (last (y :: l) d).
  change (last (x :: y :: l) d') with (last (y :: l) d').
  apply IH.
Qed.

Lemma last_cons_default {A} (b : A) (bs : list A) (d : A) :
  last (b :: bs) d = last bs b.
Proof.
  destruct bs as [|c bs]; [reflexivity|].
  change (last (b :: c :: bs) d) with (last (c :: bs) d).
  apply last_nonempty_default.
Qed.

(** After any run of [setBypassed] calls the flag is the argument of the
    last one, or what it was when there was none. *)
Lemma setBypassed_all_last (bs : list bool) (k : IOS.DSPKernel) :
  IOS.isBypassed (IOS.setBypassed_all bs k) = last bs (IOS.isBypassed k).
Proof.
  revert k. induction bs as [|b bs IH]; intros k; [reflexivity|].
  unfold IOS.setBypassed_all in *. cbn [fold_left]. rewrite IH.
  cbn [IOS.isBypassed IOS.setBypassed]. symmetry. apply last_cons_default.
Qed.

(** The members [setBypassed(b)] writes, read one thread at a time: the
    bypass flag becomes [b] and every other member of the kernel is as it
    was. Whether the store blocks, and what a concurrent [process] sees of
    it, is not a property of this sequential reading. *)
Lemma setBypassed_sets_flag_only (b : bool) (k : IOS.DSPKernel) :
  IOS.isBypassed (IOS.setBypassed b k) = b /\
  IOS.processingBuffer (IOS.setBypassed b k) = IOS.processingBuffer k /\
  IOS.simdAlignedBuffer (IOS.setBypassed b k) = IOS.simdAlignedBuffer k /\
  IOS.maxFrames (IOS.setBypassed b k) = IOS.maxFrames k /\
  IOS.bufferCapacity (IOS.setBypassed b k) = IOS.bufferCapacity k /\
  IOS.sampleRate (IOS.setBypassed b k) = IOS.sampleRate k /\
  IOS.channelCount (IOS.setBypassed b k) = IOS.channelCount k /\
  IOS.isInitialized (IOS.setBypassed b k) = IOS.isInitialized k /\
  IOS.isProcessing (IOS.setBypassed b k) = IOS.isProcessing k.
Proof. destruct k. cbn. repeat split. Qed.

(** C10: the default-constructed kernel is uninitialized, not bypassed and
    not processing; both buffer pointers are null; the frame count, buffer
    capacity and channel count are zero; the sample rate is the default,
    48000 Hz. The bypass flag stays off until a [setBypassed(true)]: after
    any run of calls it is the argument of the last one, and off when there
    was none. *)
Theorem default_kernel_is_uninitialized :
  IOS.isInitialized IOS.DSPKernel_ctor = false /\
  IOS.isBypassed IOS.DSPKernel_ctor = false /\
  IOS.isProcessing IOS.DSPKernel_ctor = false /\
  IOS.processingBuffer IOS.DSPKernel_ctor = nullptr /\
  IOS.simdAlignedBuffer IOS.DSPKernel_ctor = nullptr /\
  IOS.maxFrames IOS.DSPKernel_ctor = 0 /\
  IOS.bufferCapacity IOS.DSPKernel_ctor = 0 /\
  IOS.channelCount IOS.DSPKernel_ctor = 0 /\
  IOS.sampleRate IOS.DSPKernel_ctor = IOS.kDefaultSampleRate /\
  IOS.kDefaultSampleRate = 48000%float /\
  forall bs, IOS.isBypassed (IOS.setBypassed_all bs IOS.DSPKernel_ctor) = last bs false.
Proof.
  repeat (split; [reflexivity|]).
  intros bs. apply setBypassed_all_last.
Qed.

(** * Further properties of the macOS header *)

(** ** The constructor as one case analysis *)

Lemma channels_accepted_range (channels : Z) :
  channels_rejected channels = false -> 0 < channels <= MacOS.MAX_CHANNELS.
Proof.
  unfold channels_rejected. intros H. apply orb_false_iff in H.
  destruct H as [H1 H2]. apply Z.leb_gt in H1. apply Z.ltb_ge in H2. lia.
Qed.

Lemma buffer_bytes_in_bounds (channels : Z) :
  0 < channels <= MacOS.MAX_CHANNELS ->
  MacOS.buffer_bytes channels = 32768 * channels.
Proof.
  intros H. unfold MacOS.buffer_bytes. rewrite (buffer_samples_in_bounds _ H).
  unfold MacOS.MAX_CHANNELS, MacOS.MAX_BUFFER_SIZE, sizeof_float in *.
  rewrite wrap64_small by lia. lia.
Qed.

Section CtorRun.
Context {S : System} {HS : Conforming S}.

Lemma alignedMalloc_aligned_step (bytes : Z) (w : World) :
  MacOS.alignedMalloc bytes MacOS.CACHE_LINE_SIZE w =
  (Ok (fst (aligned_step bytes w)), snd (aligned_step bytes w)).
Proof.
  unfold aligned_step.
  destruct (sys_place w MacOS.CACHE_LINE_SIZE bytes) as [p|] eqn:E.
  - destruct (alignedMalloc_cache_line bytes w p E) as (Hrun & _). exact Hrun.
  - rewrite alignedMalloc_unfold.
    change (passes_bit_test MacOS.CACHE_LINE_SIZE) with true. cbn [negb]. cbv zeta.
    change (effective_alignment MacOS.CACHE_LINE_SIZE) with MacOS.CACHE_LINE_SIZE.
    change (negb (is_pow2 MacOS.CACHE_LINE_SIZE && (MacOS.CACHE_LINE_SIZE mod sizeof_voidp =? 0)))
      with false.
    cbv iota. rewrite E. reflexivity.
Qed.

Lemma alignedFree_release (p : Z) (w : World) :
  MacOS.alignedFree p w = (Ok tt, release p w).
Proof.
  unfold release, MacOS.alignedFree, free.
  destruct (negb (p =? nullptr)); [destruct (p =? nullptr)|]; reflexivity.
Qed.

Lemma zeroing_new_Ok (bytes : Z) (w : World) (p : Z) {A} (f : Z -> A) :
  sys_place w new_alignment bytes = Some p ->
  (q <- operator_new bytes ;; memset q x00 bytes ;;; ret (f q))%cxx w =
  (Ok (f p), after_new p bytes w).
Proof.
  intros Hp. rewrite (bind_Ok _ _ _ _ _ (operator_new_Ok _ _ _ Hp)). reflexivity.
Qed.

Lemma zeroing_new_Throw (bytes : Z) (w : World) {A} (f : Z -> A) :
  sys_place w new_alignment bytes = None ->
  (q <- operator_new bytes ;; memset q x00 bytes ;;; ret (f q))%cxx w =
  (Throw bad_alloc, log_call (call_operator_new bytes) w).
Proof. intros Hp. apply bind_Throw. apply operator_new_Throw. exact Hp. Qed.

Lemma vDSP_create_fftsetup_run (log2n : Z) (w : World) :
  vDSP_create_fftsetup log2n w =
  (Ok (setup_handle (sys_fftsetup w log2n)),
   after_fftsetup log2n (sys_fftsetup w log2n) w).
Proof. unfold vDSP_create_fftsetup. destruct (sys_fftsetup w log2n); reflexivity. Qed.

Lemma throw_with_message_run {A} (E : string -> exn) (what : string) (w : World) :
  throw_with_message (A := A) E what w = message_throw E what w.
Proof.
  unfold throw_with_message, message_throw, bind, operator_new, throw.
  destruct (sys_place w new_alignment (what_bytes what)); reflexivity.
Qed.

Lemma message_throw_cases {A} (E : string -> exn) (what : string) (w : World)
      (r : result A) (w' : World) :
  message_throw E what w = (r, w') ->
  (exists p, sys_place w new_alignment (what_bytes what) = Some p /\
             r = Throw (E what) /\
             w' = add_block p (what_bytes what)
                            (log_call (call_operator_new (what_bytes what)) w)) \/
  (sys_place w new_alignment (what_bytes what) = None /\
   r = Throw bad_alloc /\
   w' = log_call (call_operator_new (what_bytes what)) w).
Proof.
  unfold message_throw.
  destruct (sys_place w new_alignment (what_bytes what)) as [p|];
    intros H; injection H as <- <-.
  - left. exists p. repeat split.
  - right. repeat split.
Qed.

Lemma message_throw_not_Ok {A} (E : string -> exn) (what : string) (w : World)
      (a : A) (w' : World) :
  message_throw E what w <> (Ok a, w').
Proof.
  intros H. destruct (message_throw_cases _ _ _ _ _ H) as [(p & _ & Hr & _)|(_ & Hr & _)];
    discriminate Hr.
Qed.

(** Unwinding past a kernel whose vector and temporary buffer are still
    empty destroys nothing. *)
Lemma unwinding_throw (E : string -> exn) (what : string) (k : MacOS.DSPKernel)
      (w : World) :
  MacOS.tempBuffer k = nullptr ->
  MacOS.vec_data (MacOS.processingBuffer k) = nullptr ->
  on_unwind (throw_with_message E what) (MacOS.destroy_members k) w =
  message_throw (A := MacOS.DSPKernel) E what w.
Proof.
  intros Ht Hv. unfold on_unwind. rewrite throw_with_message_run.
  unfold message_throw.
  destruct (sys_place w new_alignment (what_bytes what));
    unfold MacOS.destroy_members, MacOS.unique_ptr_dtor, MacOS.vector_dtor, bind, ret;
    rewrite Ht, Hv; reflexivity.
Qed.

Lemma ctor_run (sampleRate : float) (channels : Z) (w : World) :
  sample_rate_rejected sampleRate = false ->
  channels_rejected channels = false ->
  MacOS.DSPKernel_ctor sampleRate channels w = ctor_outcome sampleRate channels w.
Proof.
  intros Hg1 Hg2. pose proof (channels_accepted_range _ Hg2) as Hch.
  unfold MacOS.DSPKernel_ctor, ctor_outcome.
  fold (sample_rate_rejected sampleRate). fold (channels_rejected channels).
  rewrite Hg1, Hg2. cbv zeta.
  set (bytes := MacOS.buffer_bytes channels).
  rewrite (bind_Ok _ _ _ _ _ (alignedMalloc_aligned_step bytes w)).
  set (s1 := aligned_step bytes w).
  rewrite (bind_Ok _ _ _ _ _ (alignedMalloc_aligned_step bytes (snd s1))).
  set (s2 := aligned_step bytes (snd s1)).
  cbn [MacOS.inputBuffer MacOS.outputBuffer MacOS.processingBuffer MacOS.tempBuffer
       MacOS.set_inputBuffer MacOS.set_outputBuffer].
  destruct ((fst s1 =? nullptr) || (fst s2 =? nullptr)).
  - rewrite (bind_Ok _ _ _ _ _ (alignedFree_release (fst s1) (snd s2))).
    rewrite (bind_Ok _ _ _ _ _ (alignedFree_release (fst s2) _)).
    apply unwinding_throw; reflexivity.
  - assert (Hn : (MacOS.buffer_samples channels =? 0) = false).
    { apply Z.eqb_neq. rewrite (buffer_samples_in_bounds _ Hch).
      unfold MacOS.MAX_BUFFER_SIZE. lia. }
    unfold MacOS.vector_resize. rewrite Hn.
    change (wrap64 (MacOS.buffer_samples channels * sizeof_float)) with bytes.
    destruct (sys_place (snd s2) new_alignment bytes) as [pb|] eqn:Epb.
    2:{ rewrite (bind_Throw _ _ _ _ _
                   (on_unwind_Throw _ _ _ _ _
                      (bind_Throw _ _ _ _ _ (operator_new_Throw _ _ Epb)))).
        reflexivity. }
    rewrite (bind_Ok _ _ _ _ _
               (on_unwind_Ok _ _ _ _ _ (zeroing_new_Ok bytes _ pb _ Epb))).
    change (bit_width (MacOS.MAX_BUFFER_SIZE mod 2 ^ 32)) with 14.
    rewrite (bind_Ok _ _ _ _ _ (vDSP_create_fftsetup_run 14 _)).
    set (w3 := after_new pb bytes (snd s2)).
    set (r := sys_fftsetup w3 14).
    set (w4 := after_fftsetup 14 r w3).
    unfold MacOS.make_unique.
    change (wrap64 (MacOS.buffer_samples channels * sizeof_float)) with bytes.
    destruct (sys_place w4 new_alignment bytes) as [t|] eqn:Et.
    + rewrite (bind_Ok _ _ _ _ _
                 (on_unwind_Ok _ _ _ _ _ (zeroing_new_Ok bytes _ t (fun q => q) Et))).
      reflexivity.
    + rewrite (bind_Throw _ _ _ _ _
                 (on_unwind_Throw _ _ _ _ _ (zeroing_new_Throw bytes _ (fun q => q) Et))).
      pose proof (place_nonnull _ _ _ _ Epb) as Hpb.
      assert (Hz : (pb =? nullptr) = false) by (apply Z.eqb_neq; unfold nullptr; lia).
      f_equal. unfold MacOS.destroy_members, MacOS.unique_ptr_dtor, MacOS.vector_dtor,
                 operator_delete, bind, ret.
      cbn [MacOS.tempBuffer MacOS.processingBuffer MacOS.vec_data
           MacOS.set_fftSetup MacOS.set_processingBuffer
           MacOS.set_inputBuffer MacOS.set_outputBuffer].
      change (nullptr =? nullptr) with true. cbn [negb]. rewrite Hz. reflexivity.
Qed.

End CtorRun.

(** ** What a successful construction leaves behind *)

Section CtorSuccessState.
Context {S : System} {HS : Conforming S}.

Lemma ctor_Ok_guards (sampleRate : float) (channels : Z) (w : World)
      (k : MacOS.DSPKernel) (w' : World) :
  MacOS.DSPKernel_ctor sampleRate channels w = (Ok k, w') ->
  sample_rate_rejected sampleRate = false /\ channels_rejected channels = false.
Proof.
  unfold MacOS.DSPKernel_ctor.
  fold (sample_rate_rejected sampleRate). fold (channels_rejected channels).
  destruct (sample_rate_rejected sampleRate).
  { rewrite unwinding_throw by reflexivity. intros H. exfalso.
    exact (message_throw_not_Ok _ _ _ _ _ H). }
  destruct (channels_rejected channels).
  { rewrite unwinding_throw by reflexivity. intros H. exfalso.
    exact (message_throw_not_Ok _ _ _ _ _ H). }
  intros _. split; reflexivity.
Qed.

(** Everything a successful construction did, step by step. *)
Lemma ctor_Ok_inv (sampleRate : float) (channels : Z) (w : World)
      (k : MacOS.DSPKernel) (w' : World) :
  MacOS.DSPKernel_ctor sampleRate channels w = (Ok k, w') ->
  exists inp out pb t,
    let bytes := MacOS.buffer_bytes channels in
    let w1 := after_aligned inp bytes w in
    let w2 := after_aligned out bytes w1 in
    let w3 := after_new pb bytes w2 in
    let r := sys_fftsetup w3 14 in
    let w4 := after_fftsetup 14 r w3 in
    0 < channels <= MacOS.MAX_CHANNELS /\
    sys_place w MacOS.CACHE_LINE_SIZE bytes = Some inp /\
    sys_place w1 MacOS.CACHE_LINE_SIZE bytes = Some out /\
    sys_place w2 new_alignment bytes = Some pb /\
    sys_place w4 new_alignment bytes = Some t /\
    k = MacOS.mkDSPKernel inp out 0 channels sampleRate
                          (MacOS.mkVector pb (MacOS.buffer_samples channels))
                          false false (setup_handle r) t /\
    w' = after_new t bytes w4.
Proof.
  intros H. destruct (ctor_Ok_guards _ _ _ _ _ H) as [Hg1 Hg2].
  rewrite (ctor_run _ _ _ Hg1 Hg2) in H. unfold ctor_outcome in H. cbv zeta in H.
  unfold aligned_step in H.
  destruct (sys_place w MacOS.CACHE_LINE_SIZE (MacOS.buffer_bytes channels))
    as [inp|] eqn:Ei; cbn [fst snd] in H.
  2:{ change (nullptr =? nullptr) with true in H. cbn [orb] in H.
      exfalso. exact (message_throw_not_Ok _ _ _ _ _ H). }
  destruct (sys_place (after_aligned inp (MacOS.buffer_bytes channels) w)
                      MacOS.CACHE_LINE_SIZE (MacOS.buffer_bytes channels))
    as [out|] eqn:Eo; cbn [fst snd] in H.
  2:{ change (nullptr =? nullptr) with true in H. rewrite orb_true_r in H.
      exfalso. exact (message_throw_not_Ok _ _ _ _ _ H). }
  destruct ((inp =? nullptr) || (out =? nullptr));
    [exfalso; exact (message_throw_not_Ok _ _ _ _ _ H)|].
  destruct (sys_place _ new_alignment _) as [pb|] eqn:Epb in H; [|discriminate H].
  destruct (sys_place _ new_alignment _) as [t|] eqn:Et in H; [|discriminate H].
  injection H as <- <-.
  exists inp, out, pb, t. cbv zeta.
  split; [exact (channels_accepted_range _ Hg2)|].
  repeat (split; [assumption|]). split; reflexivity.
Qed.

End CtorSuccessState.

Lemma after_fftsetup_live (n : Z) (r : option Z) (w : World) :
  live (after_fftsetup n r w) = live w.
Proof. destruct r; reflexivity. Qed.

Lemma after_fftsetup_mem (n : Z) (r : option Z) (w : World) :
  mem (after_fftsetup n r w) = mem w.
Proof. destruct r; reflexivity. Qed.

Lemma after_fftsetup_calls (n : Z) (r : option Z) (w : World) :
  calls (after_fftsetup n r w) = call_create_fftsetup n :: calls w.
Proof. destruct r; reflexivity. Qed.

Lemma fill_zero_inside (p n : Z) (w : World) (a : Z) :
  p <= a < p + n -> mem (fill p x00 n w) a = x00.
Proof.
  intros H. cbn. replace ((p <=? a) && (a <? p + n)) with true; [reflexivity|].
  symmetry. apply andb_true_iff. split; [apply Z.leb_le|apply Z.ltb_lt]; lia.
Qed.

Lemma fill_zero_keeps (p n : Z) (w : World) (a : Z) :
  mem w a = x00 -> mem (fill p x00 n w) a = x00.
Proof. intros H. cbn. destruct ((p <=? a) && (a <? p + n)); [reflexivity|exact H]. Qed.

Lemma filter_base_fresh (p : Z) (l : list (Z * Z)) :
  ~ In p (map fst l) -> filter (fun b => negb (fst b =? p)) l = l.
Proof.
  induction l as [|[q s] l IH]; intros Hfresh; [reflexivity|].
  cbn in *. destruct (q =? p) eqn:E.
  - apply Z.eqb_eq in E. exfalso. apply Hfresh. left. exact E.
  - cbn. f_equal. apply IH. intros H. apply Hfresh. right. exact H.
Qed.

Lemma filter_base_keep (p q s : Z) (l : list (Z * Z)) :
  q <> p ->
  filter (fun b => negb (fst b =? p)) ((q, s) :: l) =
  (q, s) :: filter (fun b => negb (fst b =? p)) l.
Proof. intros H. cbn. apply Z.eqb_neq in H. rewrite H. reflexivity. Qed.

Lemma filter_setup_fresh (h : Z) (l : list Z) :
  ~ In h l -> filter (fun s => negb (s =? h)) l = l.
Proof.
  induction l as [|q l IH]; intros Hfresh; [reflexivity|].
  cbn in *. destruct (q =? h) eqn:E.
  - apply Z.eqb_eq in E. exfalso. apply Hfresh. left. exact E.
  - cbn. f_equal. apply IH. intros H. apply Hfresh. right. exact H.
Qed.

Section CtorExtras.
Context {S : System} {HS : Conforming S}.

(** The four blocks of a successful construction. *)
Lemma ctor_Ok_blocks (sampleRate : float) (channels : Z) (w : World)
      (k : MacOS.DSPKernel) (w' : World) :
  MacOS.DSPKernel_ctor sampleRate channels w = (Ok k, w') ->
  let bytes := 32768 * channels in
  let buffers := [MacOS.tempBuffer k; MacOS.vec_data (MacOS.processingBuffer k);
                  MacOS.outputBuffer k; MacOS.inputBuffer k] in
  live w' = map (fun p => (p, bytes)) buffers ++ live w /\
  NoDup buffers /\
  forall p, In p buffers -> p <> nullptr /\ ~ In p (map fst (live w)).
Proof.
  intros H. destruct (ctor_Ok_inv _ _ _ _ _ H)
    as (inp & out & pb & t & Hch & Ei & Eo & Epb & Et & -> & ->).
  cbv zeta.
  cbn [MacOS.tempBuffer MacOS.processingBuffer MacOS.vec_data
       MacOS.outputBuffer MacOS.inputBuffer].
  pose proof (place_nonnull _ _ _ _ Ei) as Ni.
  pose proof (place_nonnull _ _ _ _ Eo) as No.
  pose proof (place_nonnull _ _ _ _ Epb) as Np.
  pose proof (place_nonnull _ _ _ _ Et) as Nt.
  pose proof (place_fresh _ _ _ _ Ei) as Fi.
  pose proof (place_fresh _ _ _ _ Eo) as Fo.
  pose proof (place_fresh _ _ _ _ Epb) as Fp.
  pose proof (place_fresh _ _ _ _ Et) as Ft.
  rewrite after_fftsetup_live in Ft. cbn in Fo, Fp, Ft.
  split.
  { cbn. rewrite after_fftsetup_live. cbn.
    rewrite (buffer_bytes_in_bounds _ Hch). reflexivity. }
  split.
  { repeat constructor; cbn; intuition. }
  intros p Hp. cbn in Hp. unfold nullptr.
  destruct Hp as [<-|[<-|[<-|[<-|[]]]]]; (split; [lia|intuition]).
Qed.

(** X1: a successful construction stores its arguments, leaves [bufferSize]
    at 0 and both flags off, sizes the processing vector to
    [MAX_BUFFER_SIZE * channels] samples, and adds exactly four live blocks
    of [32768 * channels] bytes each: the temporary, processing, output and
    input buffers, at four different non-null addresses that were not in use
    before. *)
Theorem ctor_success_state (sampleRate : float) (channels : Z) (w : World)
        (k : MacOS.DSPKernel) (w' : World) :
  MacOS.DSPKernel_ctor sampleRate channels w = (Ok k, w') ->
  let bytes := 32768 * channels in
  let buffers := [MacOS.tempBuffer k; MacOS.vec_data (MacOS.processingBuffer k);
                  MacOS.outputBuffer k; MacOS.inputBuffer k] in
  0 < channels <= MacOS.MAX_CHANNELS /\
  MacOS.numChannels k = channels /\ MacOS.sampleRate k = sampleRate /\
  MacOS.bufferSize k = 0 /\ MacOS.isProcessing k = false /\ MacOS.bypass k = false /\
  MacOS.vec_size (MacOS.processingBuffer k) = MacOS.MAX_BUFFER_SIZE * channels /\
  live w' = map (fun p => (p, bytes)) buffers ++ live w /\
  NoDup buffers /\
  forall p, In p buffers -> p <> nullptr /\ ~ In p (map fst (live w)).
Proof.
  intros H bytes buffers. pose proof (ctor_Ok_blocks _ _ _ _ _ H) as Hblocks.
  destruct (ctor_Ok_inv _ _ _ _ _ H)
    as (inp & out & pb & t & Hch & _ & _ & _ & _ & Hk & _).
  cbv zeta in Hk. subst k.
  split; [exact Hch|]. do 5 (split; [reflexivity|]).
  split; [apply buffer_samples_in_bounds; exact Hch|].
  exact Hblocks.
Qed.

(** X2: after a successful construction every byte of the input, output,
    processing and temporary buffers reads as zero. *)
Theorem ctor_zero_fills_buffers (sampleRate : float) (channels : Z) (w : World)
        (k : MacOS.DSPKernel) (w' : World) :
  MacOS.DSPKernel_ctor sampleRate channels w = (Ok k, w') ->
  forall p,
    In p [MacOS.inputBuffer k; MacOS.outputBuffer k;
          MacOS.vec_data (MacOS.processingBuffer k); MacOS.tempBuffer k] ->
    forall i, 0 <= i < 32768 * channels -> mem w' (p + i) = x00.
Proof.
  intros H p Hp i Hi. destruct (ctor_Ok_inv _ _ _ _ _ H)
    as (inp & out & pb & t & Hch & _ & _ & _ & _ & -> & ->).
  cbv zeta. rewrite (buffer_bytes_in_bounds _ Hch).
  cbn [MacOS.tempBuffer MacOS.processingBuffer MacOS.vec_data
       MacOS.outputBuffer MacOS.inputBuffer] in Hp.
  unfold after_new at 1.
  destruct Hp as [<-|[<-|[<-|[<-|[]]]]].
  - apply fill_zero_keeps. cbn [mem add_block log_call]. rewrite after_fftsetup_mem.
    unfold after_new. apply fill_zero_keeps. cbn [mem add_block log_call].
    unfold after_aligned at 1. apply fill_zero_keeps. cbn [mem add_block log_call].
    unfold after_aligned. apply fill_zero_inside. lia.
  - apply fill_zero_keeps. cbn [mem add_block log_call]. rewrite after_fftsetup_mem.
    unfold after_new. apply fill_zero_keeps. cbn [mem add_block log_call].
    unfold after_aligned at 1. apply fill_zero_inside. lia.
  - apply fill_zero_keeps. cbn [mem add_block log_call]. rewrite after_fftsetup_mem.
    unfold after_new. apply fill_zero_inside. lia.
  - apply fill_zero_inside. lia.
Qed.

(** X3: a successful construction makes exactly five runtime calls, in this
    order: [posix_memalign(64, bytes)] twice, [operator new(bytes)],
    [vDSP_create_fftsetup] with [log2n = 14] (the bit width of 8192, so a
    transform of 16384 points), and [operator new(bytes)] again, with
    [bytes = 32768 * channels]. It frees nothing. *)
Theorem ctor_call_trace (sampleRate : float) (channels : Z) (w : World)
        (k : MacOS.DSPKernel) (w' : World) :
  MacOS.DSPKernel_ctor sampleRate channels w = (Ok k, w') ->
  let bytes := 32768 * channels in
  calls w' =
    [call_operator_new bytes; call_create_fftsetup 14; call_operator_new bytes;
     call_posix_memalign MacOS.CACHE_LINE_SIZE bytes;
     call_posix_memalign MacOS.CACHE_LINE_SIZE bytes] ++ calls w.
Proof.
  intros H. destruct (ctor_Ok_inv _ _ _ _ _ H)
    as (inp & out & pb & t & Hch & _ & _ & _ & _ & _ & ->).
  cbv zeta. rewrite (buffer_bytes_in_bounds _ Hch).
  cbn [calls after_new fill add_block log_call]. rewrite after_fftsetup_calls.
  reflexivity.
Qed.

(** X5: the kernel's own alignment check accepts the input and the output
    buffer of every successfully constructed kernel, and both are multiples
    of the cache-line size. *)
Theorem ctor_buffers_pass_isBufferAligned (sampleRate : float) (channels : Z) (w : World)
        (k : MacOS.DSPKernel) (w' : World) :
  MacOS.DSPKernel_ctor sampleRate channels w = (Ok k, w') ->
  MacOS.isBufferAligned k (MacOS.inputBuffer k) w' = (Ok true, w') /\
  MacOS.isBufferAligned k (MacOS.outputBuffer k) w' = (Ok true, w') /\
  MacOS.inputBuffer k mod MacOS.CACHE_LINE_SIZE = 0 /\
  MacOS.outputBuffer k mod MacOS.CACHE_LINE_SIZE = 0.
Proof.
  intros H. destruct (ctor_Ok_inv _ _ _ _ _ H)
    as (inp & out & pb & t & _ & Ei & Eo & _ & _ & -> & _).
  cbn [MacOS.inputBuffer MacOS.outputBuffer].
  assert (Hi : inp mod MacOS.CACHE_LINE_SIZE = 0)
    by (apply (place_aligned _ _ _ _ Ei); reflexivity).
  assert (Ho : out mod MacOS.CACHE_LINE_SIZE = 0)
    by (apply (place_aligned _ _ _ _ Eo); reflexivity).
  assert (Hdiv : forall p, p mod MacOS.CACHE_LINE_SIZE = 0 -> p mod MacOS.DSP_ALIGNMENT = 0).
  { intros p Hp. unfold MacOS.CACHE_LINE_SIZE, MacOS.DSP_ALIGNMENT in *.
    apply Z.mod_divide in Hp; [|lia]. apply Z.mod_divide; [lia|].
    destruct Hp as [q ->]. exists (q * 4). lia. }
  unfold MacOS.isBufferAligned, ret.
  rewrite (Hdiv _ Hi), (Hdiv _ Ho). repeat split; assumption.
Qed.

(** X4: destroying a successfully constructed kernel gives back everything
    the constructor took: the live blocks are again those from before the
    construction and, when the transform facility hands out fresh setups,
    so are the FFT setups. *)
Theorem ctor_then_dtor_releases_everything
        (sampleRate : float) (channels : Z) (w : World)
        (k : MacOS.DSPKernel) (w' : World) :
  FreshSetups S ->
  MacOS.DSPKernel_ctor sampleRate channels w = (Ok k, w') ->
  exists w'',
    MacOS.DSPKernel_dtor k w' = (Ok tt, w'') /\
    live w'' = live w /\ setups w'' = setups w.
Proof.
  intros Hfft H.
  destruct (ctor_Ok_blocks _ _ _ _ _ H) as (Hlive & Hnd & Hfresh).
  cbv zeta in Hlive, Hnd, Hfresh.
  destruct (ctor_Ok_inv _ _ _ _ _ H)
    as (inp & out & pb & t & Hch & Ei & Eo & Epb & Et & Hk & Hw).
  cbv zeta in Hk, Hw.
  set (bytes := MacOS.buffer_bytes channels) in *.
  set (w3 := after_new pb bytes (after_aligned out bytes (after_aligned inp bytes w))) in *.
  assert (Hsetups : setups w' = match sys_fftsetup w3 14 with
                                | Some h => h :: setups w
                                | None => setups w
                                end).
  { rewrite Hw. cbn [setups after_new fill add_block log_call].
    destruct (sys_fftsetup w3 14); reflexivity. }
  subst k.
  cbn [MacOS.tempBuffer MacOS.processingBuffer MacOS.vec_data
       MacOS.outputBuffer MacOS.inputBuffer] in Hlive, Hnd, Hfresh.
  destruct (Hfresh t ltac:(cbn; tauto)) as [Nt Ft].
  destruct (Hfresh pb ltac:(cbn; tauto)) as [Np Fp].
  destruct (Hfresh out ltac:(cbn; tauto)) as [No Fo].
  destruct (Hfresh inp ltac:(cbn; tauto)) as [Ni Fi].
  apply Z.eqb_neq in Nt, Np, No, Ni.
  apply NoDup_cons_iff in Hnd. destruct Hnd as [Ht1 Hnd].
  apply NoDup_cons_iff in Hnd. destruct Hnd as [Hp1 Hnd].
  apply NoDup_cons_iff in Hnd. destruct Hnd as [Ho1 _].
  cbn in Ht1, Hp1, Ho1.
  assert (Hrel :
    filter (fun b => negb (fst b =? pb))
      (filter (fun b => negb (fst b =? t))
         (filter (fun b => negb (fst b =? out))
            (filter (fun b => negb (fst b =? inp))
               (map (fun p => (p, 32768 * channels)) [t; pb; out; inp] ++ live w)))) =
    live w).
  { assert (E1 : (t =? inp) = false) by (apply Z.eqb_neq; intros E; subst; tauto).
    assert (E2 : (pb =? inp) = false) by (apply Z.eqb_neq; intros E; subst; tauto).
    assert (E3 : (out =? inp) = false) by (apply Z.eqb_neq; intros E; subst; tauto).
    assert (E4 : (t =? out) = false) by (apply Z.eqb_neq; intros E; subst; tauto).
    assert (E5 : (pb =? out) = false) by (apply Z.eqb_neq; intros E; subst; tauto).
    assert (E6 : (pb =? t) = false) by (apply Z.eqb_neq; intros E; subst; tauto).
    cbn [map app filter fst]. rewrite E1, E2, E3, Z.eqb_refl. cbn [negb].
    rewrite (filter_base_fresh _ _ Fi).
    cbn [filter fst]. rewrite E4, E5, Z.eqb_refl. cbn [negb].
    rewrite (filter_base_fresh _ _ Fo).
    cbn [filter fst]. rewrite E6, Z.eqb_refl. cbn [negb].
    rewrite (filter_base_fresh _ _ Ft).
    cbn [filter fst]. rewrite Z.eqb_refl. cbn [negb].
    apply (filter_base_fresh _ _ Fp). }
  unfold MacOS.DSPKernel_dtor, MacOS.destroy_members, MacOS.unique_ptr_dtor,
    MacOS.vector_dtor, MacOS.alignedFree.
  cbn [MacOS.fftSetup MacOS.inputBuffer MacOS.outputBuffer MacOS.tempBuffer
       MacOS.processingBuffer MacOS.vec_data].
  rewrite Nt, Np, No, Ni. cbn [negb].
  unfold bind, free, operator_delete, vDSP_destroy_fftsetup, effect, ret.
  rewrite Nt, Np, No, Ni.
  destruct (sys_fftsetup w3 14) as [h|] eqn:Eh; cbn [setup_handle].
  - destruct (Hfft _ _ _ Eh) as [Nh Fh]. apply Z.eqb_neq in Nh. rewrite Nh. cbn [negb].
    eexists. split; [reflexivity|].
    cbn [live setups mem drop_block drop_setup log_call]. rewrite Hlive, Hsetups.
    split.
    + apply Hrel.
    + cbn [filter]. rewrite Z.eqb_refl. cbn [negb].
      apply filter_setup_fresh.
      replace (setups w) with (setups w3) by reflexivity. exact Fh.
  - change (nullptr =? nullptr) with true. cbn [negb].
    eexists. split; [reflexivity|].
    cbn [live setups mem drop_block drop_setup log_call]. rewrite Hlive, Hsetups.
    split; [|reflexivity].
    apply Hrel.
Qed.

End CtorExtras.

(** ** How the constructor fails *)

(** A NaN compares false with everything: neither guard of the constructor
    fires on it. *)
Lemma SFcompare_refl_not_nan (x : spec_float) :
  SFcompare x x <> Some Eq -> x = S754_nan.
Proof.
  destruct x as [s|s| |s m e]; cbn; try (intros H; exfalso; apply H; reflexivity).
  - destruct s; intros H; exfalso; apply H; reflexivity.
  - reflexivity.
  - rewrite Z.compare_refl.
    change (Pos.compare_cont Eq m m) with (m ?= m)%positive.
    rewrite Pos.compare_refl. destruct s; intros H; exfalso; apply H; reflexivity.
Qed.

Lemma is_nan_Prim2SF (x : float) : is_nan x = true -> Prim2SF x = S754_nan.
Proof.
  unfold is_nan. rewrite negb_true_iff, eqb_spec. unfold SFeqb. intros H.
  apply SFcompare_refl_not_nan. intros E. rewrite E in H. discriminate H.
Qed.

Lemma nan_not_rejected (sampleRate : float) :
  is_nan sampleRate = true -> sample_rate_rejected sampleRate = false.
Proof.
  intros H. apply is_nan_Prim2SF in H. unfold sample_rate_rejected.
  rewrite !ltb_spec, H. unfold SFltb. cbn.
  destruct (Prim2SF MacOS.MAX_SAMPLE_RATE); reflexivity.
Qed.

Section CtorFailures.
Context {S : System} {HS : Conforming S}.













(** X8: a NaN sample rate is not refused. With a channel count in range and
    an allocator that does not fail, the constructor builds a kernel whose
    [sampleRate] is that NaN. *)
Theorem ctor_accepts_nan_sample_rate (sampleRate : float) (channels : Z) (w : World) :
  is_nan sampleRate = true ->
  0 < channels <= MacOS.MAX_CHANNELS ->
  Inexhaustible S ->
  exists k w',
    MacOS.DSPKernel_ctor sampleRate channels w = (Ok k, w') /\
    MacOS.sampleRate k = sampleRate.
Proof.
  intros Hnan Hch Hinex.
  assert (Hg2 : channels_rejected channels = false).
  { unfold channels_rejected. apply orb_false_iff.
    split; [apply Z.leb_gt|apply Z.ltb_ge]; lia. }
  rewrite (ctor_run _ _ _ (nan_not_rejected _ Hnan) Hg2).
  unfold ctor_outcome, aligned_step. cbv zeta.
  destruct (sys_place w MacOS.CACHE_LINE_SIZE (MacOS.buffer_bytes channels))
    as [inp|] eqn:Ei; [|exfalso; exact (Hinex _ _ _ Ei)].
  cbn [fst snd].
  destruct (sys_place (after_aligned inp (MacOS.buffer_bytes channels) w)
                      MacOS.CACHE_LINE_SIZE (MacOS.buffer_bytes channels))
    as [out|] eqn:Eo; [|exfalso; exact (Hinex _ _ _ Eo)].
  cbn [fst snd].
  pose proof (place_nonnull _ _ _ _ Ei) as Ni.
  pose proof (place_nonnull _ _ _ _ Eo) as No.
  replace ((inp =? nullptr) || (out =? nullptr)) with false
    by (symmetry; apply orb_false_iff; unfold nullptr; split; apply Z.eqb_neq; lia).
  do 2 match goal with
       | |- context [sys_place ?w0 new_alignment ?b] =>
           let E := fresh "E" in
           destruct (sys_place w0 new_alignment b) eqn:E;
           [|exfalso; exact (Hinex _ _ _ E)]
       end.
  eexists. eexists. split; reflexivity.
Qed.


End CtorFailures.

(** ** More on [alignedMalloc] *)

Lemma pow2_ge_16_multiple (a : Z) :
  is_pow2 a = true -> MacOS.DSP_ALIGNMENT <= a -> a mod MacOS.DSP_ALIGNMENT = 0.
Proof.
  intros Hp Hge. apply is_pow2_iff in Hp. destruct Hp as [m [Hm ->]].
  unfold MacOS.DSP_ALIGNMENT in *.
  assert (4 <= m).
  { destruct (Z_lt_le_dec m 4) as [Hlt|]; [|assumption].
    assert (2 ^ m <= 2 ^ 3) by (apply Z.pow_le_mono_r; lia).
    change (2 ^ 3) with 8 in *. lia. }
  replace m with (4 + (m - 4)) by lia. rewrite Z.pow_add_r by lia.
  change (2 ^ 4) with 16. rewrite Z.mul_comm. apply Z.mod_mul. lia.
Qed.

Lemma pow2_lt_16_divides (a : Z) :
  power_of_two a -> a < MacOS.DSP_ALIGNMENT -> (a | MacOS.DSP_ALIGNMENT).
Proof.
  intros [m [Hm ->]] Hlt. unfold MacOS.DSP_ALIGNMENT in *.
  assert (m < 4).
  { destruct (Z_lt_le_dec m 4) as [|Hge]; [assumption|].
    assert (2 ^ 4 <= 2 ^ m) by (apply Z.pow_le_mono_r; lia).
    change (2 ^ 4) with 16 in *. lia. }
  exists (2 ^ (4 - m)). rewrite <- Z.pow_add_r by lia.
  replace (4 - m + m) with 4 by lia. reflexivity.
Qed.

Section AlignedMallocExtras.
Context {S : System}.

(** A non-null result means [posix_memalign] accepted the alignment. *)
Lemma alignedMalloc_success_valid (size a : Z) (w : World) (p : Z) (w' : World) :
  MacOS.alignedMalloc size a w = (Ok p, w') -> p <> nullptr ->
  is_pow2 (effective_alignment a) = true.
Proof.
  rewrite alignedMalloc_unfold. intros H Hp.
  destruct (negb (passes_bit_test a)); [injection H as <- _; contradiction|].
  cbv zeta in H.
  destruct (is_pow2 (effective_alignment a)); [reflexivity|].
  cbn [andb negb] in H. injection H as <- _. contradiction.
Qed.

(** X10: every non-null pointer [alignedMalloc] returns, whatever alignment
    was asked for, is a multiple of [DSP_ALIGNMENT] and is accepted by the
    kernel's [isBufferAligned]; when the alignment asked for is a power of
    two, the pointer is a multiple of it as well. *)
Theorem alignedMalloc_result_alignment {HS : Conforming S}
        (size alignment : Z) (w : World) (p : Z) (w' : World) (k : MacOS.DSPKernel) :
  MacOS.alignedMalloc size alignment w = (Ok p, w') ->
  p <> nullptr ->
  p mod MacOS.DSP_ALIGNMENT = 0 /\
  MacOS.isBufferAligned k p w' = (Ok true, w') /\
  (power_of_two alignment -> p mod alignment = 0).
Proof.
  intros H Hp.
  pose proof (alignedMalloc_success_valid _ _ _ _ _ H Hp) as Hvalid.
  destruct (alignedMalloc_spec _ _ _ _ _ H) as [[Hnull _]|Hok]; [contradiction|].
  destruct Hok as (_ & _ & _ & _ & _ & _ & Hal & _).
  pose proof (pow2_ge_16_multiple _ Hvalid (effective_alignment_ge alignment)) as Hmul.
  assert (H16 : p mod MacOS.DSP_ALIGNMENT = 0).
  { unfold MacOS.DSP_ALIGNMENT in *.
    apply Z.mod_divide in Hal; [|pose proof (effective_alignment_ge alignment);
                                   unfold MacOS.DSP_ALIGNMENT in *; lia].
    apply Z.mod_divide in Hmul; [|lia]. apply Z.mod_divide; [lia|].
    exact (Z.divide_trans _ _ _ Hmul Hal). }
  split; [exact H16|]. split.
  - unfold MacOS.isBufferAligned, ret. rewrite H16. reflexivity.
  - intros Hpow. pose proof (power_of_two_pos _ Hpow) as Hpos.
    destruct (Z_lt_le_dec alignment MacOS.DSP_ALIGNMENT) as [Hlt|Hge].
    + apply Z.mod_divide; [lia|]. apply Z.mod_divide in H16;
        [|unfold MacOS.DSP_ALIGNMENT; lia].
      exact (Z.divide_trans _ _ _ (pow2_lt_16_divides _ Hpow Hlt) H16).
    + rewrite (effective_alignment_keeps _ Hge) in Hal. exact Hal.
Qed.

(** X11: the only bytes [alignedMalloc] writes are those of the block it
    returns: every byte outside [ptr, ptr + size) keeps its value, the FFT
    setups are untouched, and the live blocks are the old ones plus the new
    block, or just the old ones when the result is [nullptr]. *)
Theorem alignedMalloc_frame {HS : Conforming S}
        (size alignment : Z) (w : World) (p : Z) (w' : World) :
  MacOS.alignedMalloc size alignment w = (Ok p, w') ->
  (forall a, p = nullptr \/ a < p \/ p + size <= a -> mem w' a = mem w a) /\
  setups w' = setups w /\
  live w' = if p =? nullptr then live w else (p, size) :: live w.
Proof.
  intros H. pose proof (alignedMalloc_spec _ _ _ _ _ H) as Hs.
  rewrite alignedMalloc_unfold in H.
  destruct Hs as [(-> & Hl & Hm & Hse)|(Hp & _ & Hq & Hl & Hse & _)].
  - split; [intros a _; rewrite Hm; reflexivity|]. split; [exact Hse|exact Hl].
  - assert (Hz : (p =? nullptr) = false) by (apply Z.eqb_neq; unfold nullptr; lia).
    rewrite Hz. split; [|split; [exact Hse|exact Hl]].
    intros a Ha. destruct Ha as [Ha|Ha]; [unfold nullptr in Ha; lia|].
    destruct (negb (passes_bit_test alignment)); [injection H as E _; unfold nullptr in E; lia|].
    cbv zeta in H.
    destruct (negb (is_pow2 _ && _)); [injection H as E _; unfold nullptr in E; lia|].
    rewrite Hq, Hz in H. injection H as <-. cbn.
    replace ((p <=? a) && (a <? p + size)) with false; [reflexivity|].
    symmetry. apply andb_false_iff.
    destruct Ha as [Ha|Ha]; [left; apply Z.leb_gt|right; apply Z.ltb_ge]; lia.
Qed.

(** X12: how [alignedMalloc] treats a non-zero [size_t] alignment. A power
    of two makes exactly one [posix_memalign] call, with the alignment
    raised to at least [DSP_ALIGNMENT], and when the allocator cannot place
    the block the result is [nullptr] with nothing allocated. Anything else
    is refused with [nullptr] before the allocator is asked, and the world
    is left exactly as it was. *)
Theorem alignedMalloc_validates_alignment {HS : Conforming S}
        (size alignment : Z) (w : World) :
  0 < alignment < 2 ^ 64 ->
  (power_of_two alignment ->
   exists p w',
     MacOS.alignedMalloc size alignment w = (Ok p, w') /\
     calls w' = call_posix_memalign (Z.max alignment MacOS.DSP_ALIGNMENT) size :: calls w /\
     (sys_place w (Z.max alignment MacOS.DSP_ALIGNMENT) size = None ->
      p = nullptr /\ live w' = live w)) /\
  (~ power_of_two alignment ->
   MacOS.alignedMalloc size alignment w = (Ok nullptr, w)).
Proof.
  intros Hr. split; [|apply alignedMalloc_rejects_non_pow2; exact Hr].
  intros Hpow. rewrite alignedMalloc_unfold.
  rewrite (pow2_passes_bit_test _ Hpow) by lia. cbn [negb]. cbv zeta.
  rewrite (effective_alignment_valid alignment) by
      (first [lia | apply pow2_passes_bit_test; [exact Hpow|lia]]).
  cbn [negb]. rewrite effective_alignment_max.
  destruct (sys_place w (Z.max alignment MacOS.DSP_ALIGNMENT) size) as [q|] eqn:Eq.
  - destruct (q =? nullptr); eexists; eexists;
      (split; [reflexivity|]); (split; [reflexivity|]); intros E; discriminate E.
  - eexists; eexists. split; [reflexivity|]. split; [reflexivity|].
    intros _. split; reflexivity.
Qed.

End AlignedMallocExtras.

(** ** The constructor with an allocator that serves it *)

Section CtorServed.
Context {S : System} {HS : Conforming S}.

(** C2, as the code has it: for every pair within the valid bounds, when the
    allocator serves the four requests the constructor makes, the
    constructor returns a kernel whose four buffers are the allocator's four
    answers: the input and the output buffer, asked through [alignedMalloc]
    at the cache-line size and aligned to it (64 bytes), and the storage of
    the processing vector and the temporary buffer, asked through
    [operator new] and aligned to what [operator new] guarantees, nothing
    more. All four are non-null, they are exactly the live blocks the
    construction adds, each of [MAX_BUFFER_SIZE * channels * sizeof(float)]
    bytes, and the runtime calls are the two [posix_memalign], the
    [operator new] of the vector, the FFT setup and the [operator new] of
    the temporary buffer. *)
Theorem ctor_succeeds_with_aligned_io_buffers
        (sampleRate : float) (channels : Z) (w : World) (inp out pb t : Z) :
  in_bounds sampleRate channels ->
  ctor_requests_served channels w inp out pb t ->
  exists k w',
    MacOS.DSPKernel_ctor sampleRate channels w = (Ok k, w') /\
    MacOS.inputBuffer k = inp /\ MacOS.outputBuffer k = out /\
    MacOS.vec_data (MacOS.processingBuffer k) = pb /\ MacOS.tempBuffer k = t /\
    let bytes := MacOS.buffer_bytes channels in
    (forall p, In p [t; pb; out; inp] -> p <> nullptr) /\
    inp mod MacOS.CACHE_LINE_SIZE = 0 /\
    out mod MacOS.CACHE_LINE_SIZE = 0 /\
    t mod new_alignment = 0 /\
    live w' = map (fun p => (p, bytes)) [t; pb; out; inp] ++ live w /\
    calls w' =
      [call_operator_new bytes; call_create_fftsetup 14; call_operator_new bytes;
       call_posix_memalign MacOS.CACHE_LINE_SIZE bytes;
       call_posix_memalign MacOS.CACHE_LINE_SIZE bytes] ++ calls w.
Proof.
  intros Hin Hserved. unfold ctor_requests_served in Hserved. cbv zeta in Hserved.
  destruct Hserved as (Ei & Eo & Epb & Et).
  destruct (in_bounds_passes_guards _ _ Hin) as [Hg1 Hg2].
  rewrite (ctor_run _ _ _ Hg1 Hg2). unfold ctor_outcome, aligned_step. cbv zeta.
  rewrite Ei. cbn [fst snd]. rewrite Eo. cbn [fst snd].
  pose proof (place_nonnull _ _ _ _ Ei) as Ni.
  pose proof (place_nonnull _ _ _ _ Eo) as No.
  pose proof (place_nonnull _ _ _ _ Epb) as Np.
  pose proof (place_nonnull _ _ _ _ Et) as Nt.
  replace ((inp =? nullptr) || (out =? nullptr)) with false
    by (symmetry; apply orb_false_iff; unfold nullptr; split; apply Z.eqb_neq; lia).
  rewrite Epb, Et.
  eexists. eexists. split; [reflexivity|].
  cbn [MacOS.tempBuffer MacOS.processingBuffer MacOS.vec_data
       MacOS.outputBuffer MacOS.inputBuffer].
  do 4 (split; [reflexivity|]).
  split.
  { intros p Hp. cbn in Hp. unfold nullptr.
    destruct Hp as [<-|[<-|[<-|[<-|[]]]]]; lia. }
  split; [apply (place_aligned _ _ _ _ Ei); reflexivity|].
  split; [apply (place_aligned _ _ _ _ Eo); reflexivity|].
  split; [apply (place_aligned _ _ _ _ Et); apply new_alignment_pos|].
  split.
  - cbn [live after_new fill add_block log_call]. rewrite after_fftsetup_live.
    reflexivity.
  - cbn [calls after_new fill add_block log_call]. rewrite after_fftsetup_calls.
    reflexivity.
Qed.

End CtorServed.

(** ** Two kernels *)

(** What the destructor does to the live blocks and the FFT setups, on
    pointers the runtime accepts. *)
Lemma dtor_run (k : MacOS.DSPKernel) (w : World) :
  let drop := fun p l => if p =? nullptr then l
                         else filter (fun c : Z * Z => negb (fst c =? p)) l in
  exists w',
    MacOS.DSPKernel_dtor k w = (Ok tt, w') /\
    live w' = drop (MacOS.vec_data (MacOS.processingBuffer k))
                (drop (MacOS.tempBuffer k)
                   (drop (MacOS.outputBuffer k)
                      (drop (MacOS.inputBuffer k) (live w)))) /\
    setups w' = if MacOS.fftSetup k =? nullptr then setups w
                else filter (fun s => negb (s =? MacOS.fftSetup k)) (setups w).
Proof.
  cbv zeta.
  unfold MacOS.DSPKernel_dtor, MacOS.destroy_members, MacOS.unique_ptr_dtor,
    MacOS.vector_dtor, MacOS.alignedFree, bind, free, operator_delete,
    vDSP_destroy_fftsetup, effect, ret.
  destruct (MacOS.fftSetup k =? nullptr); destruct (MacOS.inputBuffer k =? nullptr);
    destruct (MacOS.outputBuffer k =? nullptr); destruct (MacOS.tempBuffer k =? nullptr);
    destruct (MacOS.vec_data (MacOS.processingBuffer k) =? nullptr);
    cbn [negb]; eexists; (split; [reflexivity|]); split; reflexivity.
Qed.

Lemma filter_base_fresh_tagged (p n : Z) (l : list Z) :
  ~ In p l ->
  filter (fun c : Z * Z => negb (fst c =? p)) (map (fun q => (q, n)) l) =
  map (fun q => (q, n)) l.
Proof.
  intros H. apply filter_base_fresh. rewrite map_map. cbn [fst]. rewrite map_id. exact H.
Qed.

(** Releasing four distinct blocks that sit on top of a list in which none
    of them occurs gives the list back. *)
Lemma release_four (t pb out inp n : Z) (l : list (Z * Z)) :
  NoDup [t; pb; out; inp] ->
  (forall p, In p [t; pb; out; inp] -> ~ In p (map fst l)) ->
  filter (fun b => negb (fst b =? pb))
    (filter (fun b => negb (fst b =? t))
       (filter (fun b => negb (fst b =? out))
          (filter (fun b => negb (fst b =? inp))
             (map (fun p => (p, n)) [t; pb; out; inp] ++ l)))) = l.
Proof.
  intros Hnd Hfresh.
  apply NoDup_cons_iff in Hnd. destruct Hnd as [Ht1 Hnd].
  apply NoDup_cons_iff in Hnd. destruct Hnd as [Hp1 Hnd].
  apply NoDup_cons_iff in Hnd. destruct Hnd as [Ho1 _].
  cbn in Ht1, Hp1, Ho1.
  pose proof (Hfresh t ltac:(cbn; tauto)) as Ft.
  pose proof (Hfresh pb ltac:(cbn; tauto)) as Fp.
  pose proof (Hfresh out ltac:(cbn; tauto)) as Fo.
  pose proof (Hfresh inp ltac:(cbn; tauto)) as Fi.
  assert (E1 : (t =? inp) = false) by (apply Z.eqb_neq; intros E; subst; tauto).
  assert (E2 : (pb =? inp) = false) by (apply Z.eqb_neq; intros E; subst; tauto).
  assert (E3 : (out =? inp) = false) by (apply Z.eqb_neq; intros E; subst; tauto).
  assert (E4 : (t =? out) = false) by (apply Z.eqb_neq; intros E; subst; tauto).
  assert (E5 : (pb =? out) = false) by (apply Z.eqb_neq; intros E; subst; tauto).
  assert (E6 : (pb =? t) = false) by (apply Z.eqb_neq; intros E; subst; tauto).
  cbn [map app filter fst]. rewrite E1, E2, E3, Z.eqb_refl. cbn [negb].
  rewrite (filter_base_fresh _ _ Fi).
  cbn [filter fst]. rewrite E4, E5, Z.eqb_refl. cbn [negb].
  rewrite (filter_base_fresh _ _ Fo).
  cbn [filter fst]. rewrite E6, Z.eqb_refl. cbn [negb].
  rewrite (filter_base_fresh _ _ Ft).
  cbn [filter fst]. rewrite Z.eqb_refl. cbn [negb].
  apply (filter_base_fresh _ _ Fp).
Qed.

Section TwoKernels.
Context {S : System} {HS : Conforming S}.

(** The FFT setup of a successfully constructed kernel. *)
Lemma ctor_Ok_setups (sampleRate : float) (channels : Z) (w : World)
      (k : MacOS.DSPKernel) (w' : World) :
  FreshSetups S ->
  MacOS.DSPKernel_ctor sampleRate channels w = (Ok k, w') ->
  setups w' = (if MacOS.fftSetup k =? nullptr then [] else [MacOS.fftSetup k]) ++ setups w /\
  (MacOS.fftSetup k <> nullptr -> ~ In (MacOS.fftSetup k) (setups w)).
Proof.
  intros Hfft H. destruct (ctor_Ok_inv _ _ _ _ _ H)
    as (inp & out & pb & t & _ & _ & _ & _ & _ & -> & ->).
  cbv zeta. cbn [MacOS.fftSetup setups after_new fill add_block log_call].
  match goal with |- context [sys_fftsetup ?w3 14] => set (w3' := w3) end.
  destruct (sys_fftsetup w3' 14) as [h|] eqn:Eh; cbn [setup_handle after_fftsetup].
  - destruct (Hfft _ _ _ Eh) as [Nh Fh].
    replace (h =? nullptr) with false by (symmetry; apply Z.eqb_neq; exact Nh).
    split; [reflexivity|]. intros _. exact Fh.
  - change (nullptr =? nullptr) with true. split; [reflexivity|].
    intros Hn. exfalso. apply Hn. reflexivity.
Qed.

(** X13: destroying a kernel leaves a kernel that was constructed after it
    intact. When kernel A is constructed, then kernel B, and then A is
    destroyed, the destructor returns and the live blocks are exactly B's
    four buffers on top of the blocks from before A was constructed; with a
    transform facility that hands out fresh setups, the FFT setups are B's
    own, if it has one, on top of the earlier ones. *)
Theorem dtor_leaves_other_kernel_intact
        (rateA rateB : float) (channelsA channelsB : Z) (w w1 w2 : World)
        (kA kB : MacOS.DSPKernel) :
  FreshSetups S ->
  MacOS.DSPKernel_ctor rateA channelsA w = (Ok kA, w1) ->
  MacOS.DSPKernel_ctor rateB channelsB w1 = (Ok kB, w2) ->
  exists w3,
    MacOS.DSPKernel_dtor kA w2 = (Ok tt, w3) /\
    live w3 =
      map (fun p => (p, 32768 * channelsB))
          [MacOS.tempBuffer kB; MacOS.vec_data (MacOS.processingBuffer kB);
           MacOS.outputBuffer kB; MacOS.inputBuffer kB] ++ live w /\
    setups w3 =
      (if MacOS.fftSetup kB =? nullptr then [] else [MacOS.fftSetup kB]) ++ setups w.
Proof.
  intros Hfft HA HB.
  destruct (ctor_Ok_blocks _ _ _ _ _ HA) as (HlA & NdA & FrA).
  destruct (ctor_Ok_blocks _ _ _ _ _ HB) as (HlB & NdB & FrB).
  destruct (ctor_Ok_setups _ _ _ _ _ Hfft HA) as (HsA & FsA).
  destruct (ctor_Ok_setups _ _ _ _ _ Hfft HB) as (HsB & FsB).
  cbv zeta in HlA, NdA, FrA, HlB, NdB, FrB.
  set (tA := MacOS.tempBuffer kA) in *.
  set (pA := MacOS.vec_data (MacOS.processingBuffer kA)) in *.
  set (oA := MacOS.outputBuffer kA) in *.
  set (iA := MacOS.inputBuffer kA) in *.
  set (B4 := [MacOS.tempBuffer kB; MacOS.vec_data (MacOS.processingBuffer kB);
              MacOS.outputBuffer kB; MacOS.inputBuffer kB]) in *.
  set (hA := MacOS.fftSetup kA) in *. set (hB := MacOS.fftSetup kB) in *.
  assert (HnotB : forall p, In p [tA; pA; oA; iA] -> ~ In p B4).
  { intros p Hp HpB. destruct (FrB p HpB) as [_ Hfresh]. apply Hfresh.
    rewrite HlA, map_app, map_map. cbn [fst]. rewrite map_id.
    apply in_or_app. left. exact Hp. }
  destruct (dtor_run kA w2) as (w3 & Hrun & Hl3 & Hs3). cbv zeta in Hl3.
  fold tA pA oA iA hA in Hl3, Hs3.
  destruct (FrA tA ltac:(cbn; tauto)) as [Nt _].
  destruct (FrA pA ltac:(cbn; tauto)) as [Np _].
  destruct (FrA oA ltac:(cbn; tauto)) as [No _].
  destruct (FrA iA ltac:(cbn; tauto)) as [Ni _].
  apply Z.eqb_neq in Nt, Np, No, Ni. rewrite Nt, Np, No, Ni in Hl3.
  exists w3. split; [exact Hrun|]. split.
  - rewrite Hl3, HlB, HlA. rewrite !filter_app.
    rewrite (filter_base_fresh_tagged iA _ B4) by (apply HnotB; cbn; tauto).
    rewrite (filter_base_fresh_tagged oA _ B4) by (apply HnotB; cbn; tauto).
    rewrite (filter_base_fresh_tagged tA _ B4) by (apply HnotB; cbn; tauto).
    rewrite (filter_base_fresh_tagged pA _ B4) by (apply HnotB; cbn; tauto).
    f_equal. rewrite <- !filter_app.
    apply release_four; [exact NdA|]. intros p Hp. exact (proj2 (FrA p Hp)).
  - rewrite Hs3, HsB, HsA. destruct (hA =? nullptr) eqn:EA; [reflexivity|].
    apply Z.eqb_neq in EA. rewrite !filter_app.
    cbn [filter app]. rewrite Z.eqb_refl. cbn [negb app].
    rewrite (filter_setup_fresh _ _ (FsA EA)).
    destruct (hB =? nullptr) eqn:EB; [reflexivity|].
    apply Z.eqb_neq in EB. cbn [filter].
    replace (hB =? hA) with false; [reflexivity|].
    symmetry. apply Z.eqb_neq. intros E. apply (FsB EB).
    rewrite HsA. apply in_or_app. left.
    replace (hA =? nullptr) with false by (symmetry; apply Z.eqb_neq; exact EA).
    left. symmetry. exact E.
Qed.

End TwoKernels.

(** ** The properties above on concrete runs *)

Lemma fold_max_above (x : Z) (l : list Z) : In x l -> x <= fold_right Z.max 0 l.
Proof.
  induction l as [|y l IH]; cbn [fold_right In]; [contradiction|].
  intros [->|Hin]; [lia|]. specialize (IH Hin). lia.
Qed.

Lemma fold_max_nonneg (l : list Z) : 0 <= fold_right Z.max 0 l.
Proof. induction l as [|y l IH]; cbn [fold_right]; lia. Qed.

Lemma numbering_conforming (limit : option Z) : Conforming (numbering_system limit).
Proof.
  destruct (bump_conforming limit) as [Ha Hn Hf Hp].
  constructor; [exact Ha|exact Hn|exact Hf|exact Hp].
Qed.

Lemma numbering_fresh_setups (limit : option Z) : FreshSetups (numbering_system limit).
Proof.
  intros w log2n h Hh. change (numbering_fftsetup w log2n = Some h) in Hh.
  unfold numbering_fftsetup in Hh.
  assert (E : h = 1 + fold_right Z.max 0 (setups w)) by congruence. clear Hh. subst h.
  pose proof (fold_max_nonneg (setups w)). split.
  - unfold nullptr. lia.
  - intros Hin. apply fold_max_above in Hin. lia.
Qed.



Lemma bump_serves_48000_stereo :
  ctor_requests_served (S := Bump.system (Some 300000)) 2 Bump.fresh_world
                       4160 69760 135312 200864.
Proof. unfold ctor_requests_served. cbv zeta. repeat split; vm_compute; reflexivity. Qed.

Lemma ctor_succeeds_with_aligned_io_buffers_witness :
  in_bounds 48000%float 2 /\
  ctor_requests_served (S := Bump.system (Some 300000)) 2 Bump.fresh_world
                       4160 69760 135312 200864 /\
  exists k w',
    MacOS.DSPKernel_ctor (S := Bump.system (Some 300000)) 48000%float 2 Bump.fresh_world =
      (Ok k, w') /\
    MacOS.inputBuffer k = 4160 /\ MacOS.outputBuffer k = 69760 /\
    MacOS.vec_data (MacOS.processingBuffer k) = 135312 /\ MacOS.tempBuffer k = 200864 /\
    4160 mod 64 = 0 /\ 69760 mod 64 = 0 /\ 200864 mod 16 = 0 /\
    live w' = [(200864, 65536); (135312, 65536); (69760, 65536); (4160, 65536)] /\
    calls w' =
      [call_operator_new 65536; call_create_fftsetup 14; call_operator_new 65536;
       call_posix_memalign 64 65536; call_posix_memalign 64 65536].
Proof.
  split; [exact in_bounds_48000_stereo|]. split; [exact bump_serves_48000_stereo|].
  destruct (ctor_succeeds_with_aligned_io_buffers
              (S := Bump.system (Some 300000)) (HS := bump_conforming (Some 300000))
              48000%float 2 Bump.fresh_world _ _ _ _ in_bounds_48000_stereo
              bump_serves_48000_stereo)
    as (k & w' & Hrun & Hi & Ho & Hp & Ht & _ & Ai & Ao & At & Hlive & Hcalls).
  exists k, w'. split; [exact Hrun|].
  split; [exact Hi|]. split; [exact Ho|]. split; [exact Hp|]. split; [exact Ht|].
  split; [exact Ai|]. split; [exact Ao|]. split; [exact At|].
  split; [exact Hlive | exact Hcalls].
Defined.

(** A run equation [r = (x, snd r)] from the value of [fst r] alone, so that
    the memory of the resulting world is never normalised. *)
Ltac run_equation :=
  match goal with
  | |- ?r = (_, snd ?r) =>
      transitivity (fst r, snd r);
      [apply surjective_pairing | f_equal; vm_compute; reflexivity]
  end.

Lemma ctor_success_state_witness :
  let r := MacOS.DSPKernel_ctor (S := Bump.system None) 48000%float 2 Bump.fresh_world in
  r = (Ok sample_kernel, snd r) /\
  live (snd r) = [(200864, 65536); (135312, 65536); (69760, 65536); (4160, 65536)] /\
  NoDup [200864; 135312; 69760; 4160].
Proof.
  intros r.
  assert (Hrun : r = (Ok sample_kernel, snd r)) by run_equation.
  split; [exact Hrun|].
  destruct (ctor_success_state (HS := bump_conforming None) _ _ _ _ _ Hrun)
    as (_ & _ & _ & _ & _ & _ & _ & Hlive & Hnd & _).
  split; [exact Hlive | exact Hnd].
Defined.

Lemma ctor_zero_fills_buffers_witness :
  let r := MacOS.DSPKernel_ctor (S := Bump.system None) 48000%float 2 Bump.fresh_world in
  r = (Ok sample_kernel, snd r) /\
  mem Bump.fresh_world (69760 + 65535) = xaa /\
  mem (snd r) (69760 + 65535) = x00.
Proof.
  intros r.
  assert (Hrun : r = (Ok sample_kernel, snd r)) by run_equation.
  split; [exact Hrun|]. split; [reflexivity|].
  apply (ctor_zero_fills_buffers (HS := bump_conforming None) _ _ _ _ _ Hrun 69760).
  - cbn. tauto.
  - lia.
Defined.

Lemma ctor_call_trace_witness :
  let r := MacOS.DSPKernel_ctor (S := Bump.system None) 48000%float 2 Bump.fresh_world in
  r = (Ok sample_kernel, snd r) /\
  calls (snd r) =
    [call_operator_new 65536; call_create_fftsetup 14; call_operator_new 65536;
     call_posix_memalign 64 65536; call_posix_memalign 64 65536].
Proof.
  intros r.
  assert (Hrun : r = (Ok sample_kernel, snd r)) by run_equation.
  split; [exact Hrun|].
  exact (ctor_call_trace (HS := bump_conforming None) _ _ _ _ _ Hrun).
Defined.

Lemma ctor_then_dtor_releases_everything_witness :
  let r := MacOS.DSPKernel_ctor (S := numbering_system None) 48000%float 2 Bump.fresh_world in
  FreshSetups (numbering_system None) /\
  r = (Ok sample_kernel, snd r) /\
  setups (snd r) = [1] /\
  exists w'',
    MacOS.DSPKernel_dtor sample_kernel (snd r) = (Ok tt, w'') /\
    live w'' = [] /\ setups w'' = [].
Proof.
  intros r.
  assert (Hrun : r = (Ok sample_kernel, snd r)) by run_equation.
  split; [exact (numbering_fresh_setups None)|]. split; [exact Hrun|].
  split; [reflexivity|].
  exact (ctor_then_dtor_releases_everything (HS := numbering_conforming None)
           _ _ _ _ _ (numbering_fresh_setups None) Hrun).
Defined.

Lemma ctor_buffers_pass_isBufferAligned_witness :
  let r := MacOS.DSPKernel_ctor (S := Bump.system None) 48000%float 2 Bump.fresh_world in
  r = (Ok sample_kernel, snd r) /\
  MacOS.isBufferAligned sample_kernel 4160 (snd r) = (Ok true, snd r) /\
  MacOS.isBufferAligned sample_kernel 69760 (snd r) = (Ok true, snd r) /\
  4160 mod 64 = 0 /\ 69760 mod 64 = 0.
Proof.
  intros r.
  assert (Hrun : r = (Ok sample_kernel, snd r)) by run_equation.
  split; [exact Hrun|].
  exact (ctor_buffers_pass_isBufferAligned (HS := bump_conforming None) _ _ _ _ _ Hrun).
Defined.



Lemma ctor_accepts_nan_sample_rate_witness :
  is_nan nan = true /\ 0 < 2 <= MacOS.MAX_CHANNELS /\ Inexhaustible (Bump.system None) /\
  exists k w',
    MacOS.DSPKernel_ctor (S := Bump.system None) nan 2 Bump.fresh_world = (Ok k, w') /\
    MacOS.sampleRate k = nan.
Proof.
  assert (Hch : 0 < 2 <= MacOS.MAX_CHANNELS) by (unfold MacOS.MAX_CHANNELS; lia).
  split; [reflexivity|]. split; [exact Hch|]. split; [exact bump_inexhaustible|].
  exact (ctor_accepts_nan_sample_rate (HS := bump_conforming None)
           nan 2 Bump.fresh_world eq_refl Hch bump_inexhaustible).
Defined.


Lemma alignedMalloc_result_alignment_witness :
  let r := MacOS.alignedMalloc (S := Bump.system None) 256 32 Bump.fresh_world in
  r = (Ok 4128, snd r) /\ power_of_two 32 /\
  4128 mod 16 = 0 /\
  MacOS.isBufferAligned sample_kernel 4128 (snd r) = (Ok true, snd r) /\
  4128 mod 32 = 0.
Proof.
  intros r.
  assert (Hrun : r = (Ok 4128, snd r)) by run_equation.
  assert (Hpow : power_of_two 32) by (exists 5; split; [lia|reflexivity]).
  destruct (alignedMalloc_result_alignment (HS := bump_conforming None)
              256 32 Bump.fresh_world 4128 (snd r) sample_kernel Hrun ltac:(discriminate))
    as (H16 & Hchk & Hreq).
  split; [exact Hrun|]. split; [exact Hpow|]. split; [exact H16|].
  split; [exact Hchk | exact (Hreq Hpow)].
Defined.

Lemma alignedMalloc_frame_witness :
  let r := MacOS.alignedMalloc (S := Bump.system None) 256 64 Bump.fresh_world in
  r = (Ok 4160, snd r) /\
  mem (snd r) 4159 = xaa /\ mem (snd r) (4160 + 256) = xaa /\
  setups (snd r) = [] /\ live (snd r) = [(4160, 256)].
Proof.
  intros r.
  assert (Hrun : r = (Ok 4160, snd r)) by run_equation.
  destruct (alignedMalloc_frame (HS := bump_conforming None)
              256 64 Bump.fresh_world 4160 (snd r) Hrun) as (Hmem & Hse & Hl).
  split; [exact Hrun|].
  split; [exact (Hmem 4159 ltac:(right; left; lia))|].
  split; [exact (Hmem (4160 + 256) ltac:(right; right; lia))|].
  split; [exact Hse | exact Hl].
Defined.

Lemma alignedMalloc_validates_alignment_witness :
  0 < 32 < 2 ^ 64 /\ power_of_two 32 /\ 0 < 24 < 2 ^ 64 /\ ~ power_of_two 24 /\
  (exists p w',
     MacOS.alignedMalloc (S := Bump.system None) 256 32 Bump.fresh_world = (Ok p, w') /\
     calls w' = [call_posix_memalign 32 256]) /\
  MacOS.alignedMalloc (S := Bump.system None) 256 24 Bump.fresh_world =
    (Ok nullptr, Bump.fresh_world).
Proof.
  assert (Hr32 : 0 < 32 < 2 ^ 64) by (split; reflexivity).
  assert (Hr24 : 0 < 24 < 2 ^ 64) by (split; reflexivity).
  assert (Hpow : power_of_two 32) by (exists 5; split; [lia|reflexivity]).
  assert (Hnot : ~ power_of_two 24).
  { intros Hp. apply is_pow2_iff in Hp. discriminate Hp. }
  destruct (alignedMalloc_validates_alignment (HS := bump_conforming None)
              256 32 Bump.fresh_world Hr32) as [Hyes _].
  destruct (alignedMalloc_validates_alignment (HS := bump_conforming None)
              256 24 Bump.fresh_world Hr24) as [_ Hno].
  split; [exact Hr32|]. split; [exact Hpow|]. split; [exact Hr24|]. split; [exact Hnot|].
  split; [|exact (Hno Hnot)].
  destruct (Hyes Hpow) as (p & w' & Hrun & Hcalls & _).
  exists p, w'. split; [exact Hrun | exact Hcalls].
Defined.

Lemma dtor_leaves_other_kernel_intact_witness :
  let rA := MacOS.DSPKernel_ctor (S := numbering_system None) 48000%float 2
                                 Bump.fresh_world in
  let kB := MacOS.mkDSPKernel 266432 299264 0 1 48000%float (MacOS.mkVector 332048 8192)
                              false false 2 364832 in
  let rB := MacOS.DSPKernel_ctor (S := numbering_system None) 48000%float 1 (snd rA) in
  FreshSetups (numbering_system None) /\
  rA = (Ok sample_kernel, snd rA) /\
  rB = (Ok kB, snd rB) /\
  exists w3,
    MacOS.DSPKernel_dtor sample_kernel (snd rB) = (Ok tt, w3) /\
    live w3 = [(364832, 32768); (332048, 32768); (299264, 32768); (266432, 32768)] /\
    setups w3 = [2].
Proof.
  intros rA kB rB.
  assert (HA : rA = (Ok sample_kernel, snd rA)) by run_equation.
  assert (HB : rB = (Ok kB, snd rB)) by run_equation.
  split; [exact (numbering_fresh_setups None)|]. split; [exact HA|]. split; [exact HB|].
  destruct (dtor_leaves_other_kernel_intact (HS := numbering_conforming None)
              _ _ _ _ _ _ _ _ _ (numbering_fresh_setups None) HA HB)
    as (w3 & Hrun & Hl & Hs).
  exists w3. split; [exact Hrun|]. split; [exact Hl | exact Hs].
Defined.
